(** * Schema-driven block extraction (aem-mhast): a shallow embedding

    The development follows the schema extraction module: the schema loader
    [fetchBlockSchema], the element readers [extractValueFromElement] and
    [findElement], the three type handlers and their dispatcher
    [extractSchemaValue], and the driver [extractBlockWithSchema].

    - The tree queries of [hast-util-select] and [getText] of [./utils] are
      not part of that module: they are the fields of a [Facade] record that
      every definition takes as its first argument.
    - [console.warn] and JavaScript exceptions are made explicit by the monad
      [M]: a computation yields the warnings it printed, in order, and either
      a returned value or a thrown error. *)

From Stdlib Require Import String Ascii ZArith List Bool DecimalString.
From stdpp Require Import base option gmap strings sorting.
Import ListNotations.
Set Warnings "-register-all".
Open Scope string_scope.

(** ** JavaScript values met by the extractor *)

(** The values that reading a key of a hast [Properties] object gives.
    Fractional numbers are not represented; they are truthy like every
    non-zero number.  [PVInherited name] is what the key [name] gives when
    the object has no such key of its own and [Object.prototype] has: a
    function, or for [__proto__] the prototype itself. *)
Inductive PropertyValue : Type :=
| PVString (s : string)
| PVNumber (n : Z)
| PVBoolean (b : bool)
| PVList (l : list string)
| PVNull
| PVInherited (name : string).

(** JavaScript truthiness, the test behind [if (x)], [!x] and [x || y]. *)
Definition truthy (v : PropertyValue) : bool :=
  match v with
  | PVString s => negb (String.eqb s "")
  | PVNumber n => negb (Z.eqb n 0)
  | PVBoolean b => b
  | PVList _ => true
  | PVNull => false
  | PVInherited _ => true
  end.

(** An optional string setting ([string | undefined]) under the same test:
    the non-empty string it holds, if any. *)
Definition present (o : option string) : option string :=
  match o with
  | Some s => if String.eqb s "" then None else Some s
  | None => None
  end.

(** ** The element tree (package [hast]) *)

(** [properties] holds the element's own keys; the object is a plain one,
    so reading a key goes on to [Object.prototype] (see [get_property]).  A
    child is an element or a text. *)
Inductive Element : Type := mkElement {
  tagName : string;
  properties : gmap string PropertyValue;
  children : list (Element + string)
}.

(** The keys every plain object inherits from [Object.prototype]. *)
Definition Object_prototype_keys : list string :=
  ["constructor"; "__defineGetter__"; "__defineSetter__"; "hasOwnProperty";
   "__lookupGetter__"; "__lookupSetter__"; "isPrototypeOf";
   "propertyIsEnumerable"; "toString"; "valueOf"; "__proto__"; "toLocaleString"].

(** [props[name]] on a plain object whose own keys are [props]: the own
    value, else the inherited member, else [undefined]. *)
Definition get_property (props : gmap string PropertyValue) (name : string)
  : option PropertyValue :=
  match props !! name with
  | Some v => Some v
  | None =>
      if bool_decide (name ∈ Object_prototype_keys) then Some (PVInherited name)
      else None
  end.

(** ** Schema documents *)

(** The keys [SELECTOR] and [ATTRIBUTE] are the record fields
    [x_eds_selector] and [x_eds_attribute] below. *)
Module SCHEMA_CONSTANTS.
Definition SELECTOR : string := "x-eds-selector".
Definition ATTRIBUTE : string := "x-eds-attribute".
Definition TEXT : string := "text".
Module TYPES.
Definition ARRAY : string := "array".
Definition OBJECT : string := "object".
Definition STRING : string := "string".
End TYPES.
End SCHEMA_CONSTANTS.

(** One parsed JSON object of the schema: the type tag is whatever string the
    document carries, every other key is optional.  A [Record<string, _>] is
    the list of its keys with their values in the order the document
    declares them (the order in which [JSON.parse] creates them);
    [Object_entries] below is the order in which the code visits them.
    Strings are the UTF-8 bytes of the JavaScript text. *)
Inductive SchemaProperty : Type := mkSchemaProperty {
  type_ : option string;
  description : option string;
  x_eds_selector : option string;
  x_eds_attribute : option string;
  format : option string;
  fields : option (list (string * SchemaProperty));
  required : option (list string);
  items : option SchemaProperty
}.

(** The root of a schema document; its constant [type: 'object'] is never
    read. *)
Record BlockSchema : Type := mkBlockSchema {
  schema_uri : option string;
  title : option string;
  schema_description : option string;
  root_fields : option (list (string * SchemaProperty));
  root_required : option (list string)
}.

(** ** Extracted values *)

Inductive Value : Type :=
| VLeaf (v : PropertyValue)
| VArray (l : list Value)
| VObject (o : list (string * Value)).

Definition VString (s : string) : Value := VLeaf (PVString s).

(** [Boolean(v)] on an extraction result ([null] is [None]). *)
Definition truthy_value (v : Value) : bool :=
  match v with
  | VLeaf p => truthy p
  | VArray _ | VObject _ => true
  end.

(** ** Warnings and exceptions *)

Inductive Exn : Type := JsError (message : string).

(** [console.warn(msg)] and [console.warn(msg, error)]. *)
Inductive LogEntry : Type := Warn (msg : string) (err : option Exn).

Inductive Outcome (A : Type) : Type :=
| Returned (a : A)
| Thrown (e : Exn).
Arguments Returned {A} a.
Arguments Thrown {A} e.

(** What a computation did: the warnings printed, oldest first, and how it
    ended. *)
Record M (A : Type) : Type := mkM {
  logs : list LogEntry;
  outcome : Outcome A
}.
Arguments mkM {A} logs outcome.
Arguments logs {A} m.
Arguments outcome {A} m.

Definition lift {A} (o : Outcome A) : M A := mkM [] o.
Definition warn (msg : string) (err : option Exn) : M unit :=
  mkM [Warn msg err] (Returned tt).

#[export] Instance M_ret : MRet M := fun A a => mkM [] (Returned a).

#[export] Instance M_bind : MBind M := fun A B k m =>
  match outcome m with
  | Returned a => mkM (logs m ++ logs (k a)) (outcome (k a))
  | Thrown e => mkM (logs m) (Thrown e)
  end.

(** [try { m } catch (error) { h error }]. *)
Definition try_catch {A} (m : M A) (h : Exn -> M A) : M A :=
  match outcome m with
  | Returned a => m
  | Thrown e => mkM (logs m ++ logs (h e)) (outcome (h e))
  end.

(** [Array.prototype.map] with a callback that may warn or throw. *)
Fixpoint mapM {A B} (f : A -> M B) (l : list A) : M (list B) :=
  match l with
  | [] => mret []
  | a :: rest => b ← f a; bs ← mapM f rest; mret (b :: bs)
  end.

(** ** The tree-query facade *)

Record Facade : Type := mkFacade {
  (** [select(selector, node)]: first match, or nothing; an unparsable
      selector throws. *)
  select : string -> Element -> Outcome (option Element);
  (** [selectAll(selector, node)]: every match in document order. *)
  selectAll : string -> Element -> Outcome (list Element);
  (** [getText(element)] of [./utils]: the element's descendant text. *)
  getText : Element -> string
}.

(** ** Strings *)

(** White space as [String.prototype.trim] removes it (the WhiteSpace and
    LineTerminator code points), on UTF-8 bytes: one byte for U+0009 to
    U+000D and U+0020; two for U+00A0; three for U+1680, U+2000 to U+200A,
    U+2028, U+2029, U+202F, U+205F, U+3000 and U+FEFF. *)
Definition is_space (c : ascii) : bool :=
  let n := nat_of_ascii c in
  (Nat.eqb n 32 || (Nat.leb 9 n && Nat.leb n 13))%bool.

Definition is_space2 (c1 c2 : ascii) : bool :=
  (Nat.eqb (nat_of_ascii c1) 194 && Nat.eqb (nat_of_ascii c2) 160)%bool.

Definition is_space3 (c1 c2 c3 : ascii) : bool :=
  let n1 := nat_of_ascii c1 in
  let n2 := nat_of_ascii c2 in
  let n3 := nat_of_ascii c3 in
  ((Nat.eqb n1 225 && Nat.eqb n2 154 && Nat.eqb n3 128)
   || (Nat.eqb n1 226 && Nat.eqb n2 128
       && ((Nat.leb 128 n3 && Nat.leb n3 138)
           || Nat.eqb n3 168 || Nat.eqb n3 169 || Nat.eqb n3 175))
   || (Nat.eqb n1 226 && Nat.eqb n2 129 && Nat.eqb n3 159)
   || (Nat.eqb n1 227 && Nat.eqb n2 128 && Nat.eqb n3 128)
   || (Nat.eqb n1 239 && Nat.eqb n2 187 && Nat.eqb n3 191))%bool.

Fixpoint trim_start (s : string) : string :=
  match s with
  | EmptyString => EmptyString
  | String c1 r1 =>
      if is_space c1 then trim_start r1
      else
        match r1 with
        | EmptyString => s
        | String c2 r2 =>
            if is_space2 c1 c2 then trim_start r2
            else
              match r2 with
              | EmptyString => s
              | String c3 r3 => if is_space3 c1 c2 c3 then trim_start r3 else s
              end
        end
  end.

(** The same on a reversed string, whose white space reads last byte
    first. *)
Fixpoint trim_start_reversed (s : string) : string :=
  match s with
  | EmptyString => EmptyString
  | String c1 r1 =>
      if is_space c1 then trim_start_reversed r1
      else
        match r1 with
        | EmptyString => s
        | String c2 r2 =>
            if is_space2 c2 c1 then trim_start_reversed r2
            else
              match r2 with
              | EmptyString => s
              | String c3 r3 =>
                  if is_space3 c3 c2 c1 then trim_start_reversed r3 else s
              end
        end
  end.

Fixpoint rev_string (s : string) (acc : string) : string :=
  match s with
  | String c rest => rev_string rest (String c acc)
  | EmptyString => acc
  end.

Definition trim (s : string) : string :=
  rev_string (trim_start_reversed (rev_string (trim_start s) "")) "".

(** ** Objects as ordered maps *)

(** An array index: the canonical decimal writing of an integer below
    [2^32 - 1]. *)
Definition digit (c : ascii) : option N :=
  let n := N_of_ascii c in
  if ((48 <=? n) && (n <=? 57))%N then Some (n - 48)%N else None.

Fixpoint parse_digits (s : string) (acc : N) : option N :=
  match s with
  | EmptyString => Some acc
  | String c rest =>
      match digit c with
      | Some d => parse_digits rest (acc * 10 + d)%N
      | None => None
      end
  end.

Definition array_index (k : string) : option N :=
  match k with
  | EmptyString => None
  | String c rest =>
      if (Ascii.eqb c "0" && negb (String.eqb rest ""))%bool then None
      else
        match parse_digits k 0 with
        | Some n => if (n <=? 4294967294)%N then Some n else None
        | None => None
        end
  end.

Fixpoint insert_by_index {A} (x : N * A) (l : list (N * A)) : list (N * A) :=
  match l with
  | [] => [x]
  | y :: rest =>
      if (x.1 <=? y.1)%N then x :: l else y :: insert_by_index x rest
  end.

Definition sort_by_index {A} (l : list (N * A)) : list (N * A) :=
  fold_right insert_by_index [] l.

(** [Object.entries(o)] (and [Object.keys]) on an object whose keys were
    created in the order of [o]: the array indices first, in ascending
    numeric order, then the other keys in creation order. *)
Definition index_entries {A} (o : list (string * A)) : list (N * (string * A)) :=
  omap (fun kv => (fun i => (i, kv)) <$> array_index kv.1) o.

Definition other_entries {A} (o : list (string * A)) : list (string * A) :=
  List.filter (fun kv => match array_index kv.1 with Some _ => false | None => true end) o.

Definition Object_entries {A} (o : list (string * A)) : list (string * A) :=
  ((sort_by_index (index_entries o)).*2 ++ other_entries o)%list.

(** [result[propName] = value] on an object made by [{}], as the list of its
    own keys in creation order: a new key goes last, an existing one keeps
    its place, and the key [__proto__] reaches the setter inherited from
    [Object.prototype], which creates no key. *)
Fixpoint obj_put (o : list (string * Value)) (k : string) (v : Value)
  : list (string * Value) :=
  match o with
  | [] => [(k, v)]
  | (k', v') :: rest =>
      if String.eqb k' k then (k', v) :: rest else (k', v') :: obj_put rest k v
  end.

Definition obj_set (o : list (string * Value)) (k : string) (v : Value)
  : list (string * Value) :=
  if String.eqb k "__proto__" then o else obj_put o k v.

(** ** The extraction engine *)

Section Engine.
Variable q : Facade.

Definition extractValueFromElement (element : Element) (attributeName : string)
  : PropertyValue :=
  if String.eqb attributeName SCHEMA_CONSTANTS.TEXT then
    PVString (trim (getText q element))
  else
    match get_property (properties element) attributeName with
    | Some v => if truthy v then v else PVString (trim (getText q element))
    | None => PVString (trim (getText q element))
    end.

Definition findElement (contextNode : Element) (selector : option string)
    (sharedElement : option Element) : M (option Element) :=
  match present selector with
  | Some sel => lift (select q sel contextNode)
  | None => mret sharedElement
  end.

(** [property[ATTRIBUTE] || propertyName || TEXT]. *)
Definition attributeNameOf (property : SchemaProperty)
    (propertyName : option string) : string :=
  match present (x_eds_attribute property) with
  | Some a => a
  | None =>
      match present propertyName with
      | Some n => n
      | None => SCHEMA_CONSTANTS.TEXT
      end
  end.

(** [value || null]. *)
Definition or_null (v : PropertyValue) : option Value :=
  if truthy v then Some (VLeaf v) else None.

Definition extractStringValue (contextNode : Element) (property : SchemaProperty)
    (sharedElement : option Element) (propertyName : option string)
  : M (option Value) :=
  let selector := x_eds_selector property in
  element ← findElement contextNode selector sharedElement;
  match element with
  | None =>
      match present selector, sharedElement with
      | None, None =>
          let attributeName := attributeNameOf property propertyName in
          let value := extractValueFromElement contextNode attributeName in
          mret (or_null value)
      | _, _ => mret None
      end
  | Some element =>
      let attributeName := attributeNameOf property propertyName in
      let value := extractValueFromElement element attributeName in
      mret (or_null value)
  end.

(** The three recursive handlers call back into the dispatcher; they take
    it as [self], and [extractSchemaValue] below closes the loop. *)
Section Handlers.
Variable self :
  Element -> SchemaProperty -> option Element -> option string -> M (option Value).

(** [.filter(Boolean)] on the mapped results. *)
Definition filter_Boolean (l : list (option Value)) : list Value :=
  omap (fun r => match r with
                 | Some v => if truthy_value v then Some v else None
                 | None => None
                 end) l.

Definition extractArrayValueF (contextNode : Element) (property : SchemaProperty)
  : M (option Value) :=
  match present (x_eds_selector property), items property with
  | Some selector, Some items =>
      elements ← lift (selectAll q selector contextNode);
      match elements with
      | [] => mret None
      | _ :: _ =>
          mapped ← mapM (fun element => self element items None None) elements;
          let results := filter_Boolean mapped in
          mret (match results with [] => None | _ :: _ => Some (VArray results) end)
      end
  | _, _ => mret None
  end.

(** The [for ... of Object.entries(...)] loop over the child fields. *)
Fixpoint objectLoop (extractionContext : Element) (sharedElement : option Element)
    (entries : list (string * SchemaProperty)) (result : list (string * Value))
  : M (list (string * Value)) :=
  match entries with
  | [] => mret result
  | (propName, propSchema) :: rest =>
      value ← self extractionContext propSchema sharedElement (Some propName);
      objectLoop extractionContext sharedElement rest
        (match value with
         | Some v => obj_set result propName v
         | None => result
         end)
  end.

(** The same loop over fields that come with their extraction, a value of
    [M]. *)
Fixpoint runFields (steps : list (string * M (option Value)))
    (result : list (string * Value)) : M (list (string * Value)) :=
  match steps with
  | [] => mret result
  | (propName, step) :: rest =>
      value ← step;
      runFields rest
        (match value with
         | Some v => obj_set result propName v
         | None => result
         end)
  end.

(** The loop visits [Object.entries(property.properties)].  For the
    recursion to stay structural each declared field is paired with its
    extraction before the entries are put in that order; only the
    extractions that the loop reaches take effect.  Lemma
    [extractObjectValue_unfold] gives the handler as [objectLoop] over
    [Object_entries]. *)
Definition extractObjectValueF (contextNode : Element) (property : SchemaProperty)
  : M (option Value) :=
  match fields property with
  | None => mret None
  | Some entries =>
      sharedElement ←
        match present (x_eds_selector property) with
        | Some objectSelector => lift (select q objectSelector contextNode)
        | None => mret None
        end;
      let extractionContext := default contextNode sharedElement in
      result ←
        runFields
          (Object_entries
             (map (fun ns => (ns.1, self extractionContext ns.2 sharedElement
                                      (Some ns.1))) entries)) [];
      mret (match result with [] => None | _ :: _ => Some (VObject result) end)
  end.
End Handlers.

Fixpoint extractSchemaValue (contextNode : Element) (property : SchemaProperty)
    (sharedElement : option Element) (propertyName : option string)
    {struct property} : M (option Value) :=
  match present (type_ property) with
  | None => mret None
  | Some propertyType =>
      if String.eqb propertyType SCHEMA_CONSTANTS.TYPES.STRING then
        extractStringValue contextNode property sharedElement propertyName
      else if String.eqb propertyType SCHEMA_CONSTANTS.TYPES.ARRAY then
        extractArrayValueF extractSchemaValue contextNode property
      else if String.eqb propertyType SCHEMA_CONSTANTS.TYPES.OBJECT then
        extractObjectValueF extractSchemaValue contextNode property
      else
        warn ("Unsupported schema type: " ++ propertyType) None;;
        mret None
  end.
End Engine.

(** The handlers under their source names. *)
Definition extractArrayValue (q : Facade) :=
  extractArrayValueF q (extractSchemaValue q).
Definition extractObjectValue (q : Facade) :=
  extractObjectValueF q (extractSchemaValue q).
Definition extractObjectFields (q : Facade) :=
  objectLoop (extractSchemaValue q).

(** ** The block driver *)

Section Driver.
Variable q : Facade.

(** One turn of the driver's loop: the [try] block and its [catch]. *)
Definition extractBlockField (blockNode : Element) (blockName : string)
    (propertyName : string) (propertySchema : SchemaProperty)
    (data : list (string * Value)) : M (list (string * Value)) :=
  try_catch
    (value ← extractSchemaValue q blockNode propertySchema None (Some propertyName);
     mret (match value with
           | Some v => obj_set data propertyName v
           | None => data
           end))
    (fun error =>
       warn ("Error extracting property " ++ propertyName
             ++ " for block " ++ blockName ++ ":") (Some error);;
       mret data).

Fixpoint blockLoop (blockNode : Element) (blockName : string)
    (entries : list (string * SchemaProperty)) (data : list (string * Value))
  : M (list (string * Value)) :=
  match entries with
  | [] => mret data
  | (propertyName, propertySchema) :: rest =>
      data' ← extractBlockField blockNode blockName propertyName propertySchema data;
      blockLoop blockNode blockName rest data'
  end.

Definition invalidInput (blockName : string) : M (option (list (string * Value))) :=
  warn ("Invalid input for extractBlockWithSchema: blockName=" ++ blockName) None;;
  mret None.

(** [blockNode] and [schema] are optional here because the function tests
    them itself ([!blockNode || !schema || !schema.properties]). *)
Definition extractBlockWithSchema (blockNode : option Element)
    (schema : option BlockSchema) (blockName : string)
  : M (option (list (string * Value))) :=
  match blockNode, schema with
  | Some blockNode, Some schema =>
      match root_fields schema with
      | Some entries =>
          data ← blockLoop blockNode blockName (Object_entries entries) [];
          mret (match data with [] => None | _ :: _ => Some data end)
      | None => invalidInput blockName
      end
  | _, _ => invalidInput blockName
  end.
End Driver.

(** ** The schema loader *)

Record Ctx : Type := mkCtx {
  org : option string;
  site : option string;
  edsDomainUrl : option string;
  contentPath : option string;
  sourceUrl : option string;
  useSchema : bool;
  compact : bool;
  includeHead : bool;
  transformer : option string
}.

Record URL : Type := mkURL { protocol : string; hostname : string }.

Record Response : Type := mkResponse {
  ok : bool;
  status : nat;
  (** [await response.json()]: the parsed body, or a [SyntaxError]. *)
  json : Outcome (option BlockSchema)
}.

(** The platform: the [URL] constructor and [fetch], either of which may
    throw (reject). *)
Record Net : Type := mkNet {
  new_URL : string -> Outcome URL;
  fetch : string -> Outcome Response
}.

Definition show_nat (n : nat) : string :=
  NilEmpty.string_of_uint (Nat.to_uint n).

Definition schemaUrlOf (baseDomain blockName : string) : string :=
  baseDomain ++ "/blocks/" ++ blockName ++ "/" ++ blockName ++ ".schema.json".

(** How a block of statements ends: by falling through with a value, or
    by [return]ing from the enclosing function. *)
Inductive Flow (A R : Type) : Type :=
| Continue (a : A)
| Return (r : R).
Arguments Continue {A R} a.
Arguments Return {A R} r.

Section Loader.
Variable net : Net.

Definition fetchBlockSchema (blockName : string) (ctx : Ctx)
  : M (option BlockSchema) :=
  try_catch
    (flow ←
       match present (edsDomainUrl ctx), present (sourceUrl ctx) with
       | None, Some src =>
           try_catch
             (sourceUrlObj ← lift (new_URL net src);
              mret (Continue
                      (Some (protocol sourceUrlObj ++ "//" ++ hostname sourceUrlObj))))
             (fun error =>
                warn ("Failed to extract domain from sourceUrl: " ++ src) (Some error);;
                mret (Return None))
       | _, _ => mret (Continue (edsDomainUrl ctx))
       end;
     match flow with
     | Return r => mret r
     | Continue baseDomain =>
         match present baseDomain with
         | None =>
             warn ("No domain available for fetching schema for block " ++ blockName)
                  None;;
             mret None
         | Some baseDomain =>
             let schemaUrl := schemaUrlOf baseDomain blockName in
             response ← lift (fetch net schemaUrl);
             if ok response then
               schema ← lift (json response);
               mret schema
             else
               warn ("Schema not found for block " ++ blockName ++ " at " ++ schemaUrl
                     ++ " (" ++ show_nat (status response) ++ ")") None;;
               mret None
         end
     end)
    (fun error =>
       warn ("Failed to fetch schema for block " ++ blockName ++ ":") (Some error);;
       mret None).
End Loader.

(** ** A small facade to run the engine on

    Selectors are tag names; a selector that opens a bracket does not parse.
    Matches are the descendants in document order. *)

Fixpoint descendants (e : Element) : list Element :=
  flat_map (fun c => match c with
                     | inl e' => e' :: descendants e'
                     | inr _ => []
                     end) (children e).

Fixpoint textOf (e : Element) : string :=
  fold_right String.append ""
    (map (fun c => match c with
                   | inl e' => textOf e'
                   | inr s => s
                   end) (children e)).

Definition parses (selector : string) : bool :=
  match selector with
  | String "[" _ => false
  | _ => true
  end.

Definition tagMatches (selector : string) (ctx : Element) : list Element :=
  List.filter (fun e => String.eqb (tagName e) selector) (descendants ctx).

Definition tagFacade : Facade := {|
  select selector ctx :=
    if parses selector then Returned (head (tagMatches selector ctx))
    else Thrown (JsError ("unparsable selector: " ++ selector));
  selectAll selector ctx :=
    if parses selector then Returned (tagMatches selector ctx)
    else Thrown (JsError ("unparsable selector: " ++ selector));
  getText := textOf
|}.

Definition el (tag : string) (props : list (string * string))
    (kids : list (Element + string)) : Element :=
  mkElement tag (list_to_map (map (fun '(k, v) => (k, PVString v)) props)) kids.

Definition stringProp (selector attribute : option string) : SchemaProperty :=
  mkSchemaProperty (Some "string") None selector attribute None None None None.
Definition arrayProp (selector : option string) (items : option SchemaProperty)
  : SchemaProperty :=
  mkSchemaProperty (Some "array") None selector None None None None items.
Definition objectProp (selector : option string)
    (entries : option (list (string * SchemaProperty))) (req : option (list string))
  : SchemaProperty :=
  mkSchemaProperty (Some "object") None selector None None entries req None.

Definition demoBlock : Element :=
  el "div" [] [inl (el "h2" [] [inr "Hi"]);
               inl (el "ul" [] [inl (el "li" [] [inr " x "]); inl (el "li" [] [inr "y"])])].
Definition demoSchema : BlockSchema :=
  mkBlockSchema None None None
    (Some [("title", stringProp (Some "h2") None);
           ("tags", arrayProp (Some "li") (Some (stringProp None None)))]) None.

(** [prefixed l m]: [m], run after the warnings [l] were printed. *)
Definition prefixed {A} (l : list LogEntry) (m : M A) : M A :=
  mkM (l ++ logs m) (outcome m).


(** ** Sample pages and schemas *)

(** [<a href="">Y</a>] *)
Definition emptyHref : Element := el "a" [("href", "")] [inr "Y"].
(** [<a href="X">Y</a>] *)
Definition linkXY : Element := el "a" [("href", "X")] [inr "Y"].
(** [<div><a href="X">Y</a><p>body</p></div>] *)
Definition card : Element :=
  el "div" [] [inl linkXY; inl (el "p" [] [inr "body"])].

(** ** Vocabulary of the statements *)


(** What a caught-or-not field extraction contributes to the driver. *)
Definition fieldValue (m : M (option Value)) : option Value :=
  match outcome m with
  | Returned r => r
  | Thrown _ => None
  end.

Definition fieldLogs (blockName propertyName : string) (m : M (option Value))
  : list LogEntry :=
  logs m ++
  match outcome m with
  | Returned _ => []
  | Thrown error =>
      [Warn ("Error extracting property " ++ propertyName
             ++ " for block " ++ blockName ++ ":") (Some error)]
  end.

(** [result[propName] = value] when the field produced a value. *)
Definition storeField (acc : list (string * Value)) (nr : string * option Value)
  : list (string * Value) :=
  match nr.2 with
  | Some v => obj_set acc nr.1 v
  | None => acc
  end.


(** [{type: object, selector: "a", properties: {href: string, label: string
    reading the text}}] *)
Definition linkObject : SchemaProperty :=
  objectProp (Some "a")
    (Some [("href", stringProp None None);
           ("label", stringProp None (Some "text"))]) None.

(** [{type: array, selector: "li", items: {type: string}}] *)
Definition tagsArray : SchemaProperty :=
  arrayProp (Some "li") (Some (stringProp None None)).

(** [<ul><li>x</li><li> </li><li>y</li></ul>] *)
Definition tagList : Element :=
  el "ul" [] [inl (el "li" [] [inr "x"]); inl (el "li" [] [inr " "]);
              inl (el "li" [] [inr "y"])].

(** [<div><h2>Hi</h2><p>body</p></div>] and a schema whose middle field has
    a selector that does not parse. *)
Definition teaser : Element :=
  el "div" [] [inl (el "h2" [] [inr "Hi"]); inl (el "p" [] [inr "body"])].
Definition teaserSchema : BlockSchema :=
  mkBlockSchema None None None
    (Some [("title", stringProp (Some "h2") None);
           ("broken", stringProp (Some "[") None);
           ("body", stringProp (Some "p") None)]) None.

(** A property with a type tag the engine does not know, and one whose
    type tag is the empty string. *)
Definition numberProp : SchemaProperty :=
  mkSchemaProperty (Some "number") None (Some "h2") None None None None None.
Definition blankTypeProp : SchemaProperty :=
  mkSchemaProperty (Some "") None (Some "h2") None None None None None.

(** ** Schemas up to their [required] lists *)

(** The same schema with every [required] list dropped, at every depth. *)
Fixpoint erase_required (p : SchemaProperty) : SchemaProperty :=
  match p with
  | mkSchemaProperty t d sel attr fmt fl _ it =>
      mkSchemaProperty t d sel attr fmt
        (option_map (map (fun ns => (ns.1, erase_required ns.2))) fl)
        None
        (option_map erase_required it)
  end.

Definition erase_root_required (s : BlockSchema) : BlockSchema :=
  mkBlockSchema (schema_uri s) (title s) (schema_description s)
    (option_map (map (fun ns => (ns.1, erase_required ns.2))) (root_fields s))
    None.

(** Two block schemas that differ at most in [required] lists. *)
Definition same_but_required (s1 s2 : BlockSchema) : Prop :=
  erase_root_required s1 = erase_root_required s2.

(** [{type: object, selector: "a", properties: ..., required: ["href"]}] under
    a root that requires [link], and the same schema without either list. *)
Definition strictSchema : BlockSchema :=
  mkBlockSchema None None None
    (Some [("link", objectProp (Some "a")
                      (Some [("href", stringProp None None);
                             ("label", stringProp None (Some "text"))])
                      (Some ["href"; "missing"]))])
    (Some ["link"; "absent"]).
Definition laxSchema : BlockSchema :=
  mkBlockSchema None None None (Some [("link", linkObject)]) None.

(** ** Vocabulary for the loader *)

(** [hay.includes(needle)]. *)
Fixpoint includes (needle hay : string) : bool :=
  (String.prefix needle hay
   || match hay with
      | String _ rest => includes needle rest
      | EmptyString => false
      end)%bool.

(** A printed warning shows [s], in its message or in the error printed
    after it. *)
Definition mentions (s : string) (entry : LogEntry) : bool :=
  match entry with
  | Warn msg err =>
      (includes s msg
       || match err with
          | Some (JsError m) => includes s m
          | None => false
          end)%bool
  end.

(** The base domain the loader settles on: [ctx.edsDomainUrl], or else
    protocol and host of [ctx.sourceUrl]. *)
Inductive ResolvesDomain (net : Net) (ctx : Ctx) : string -> Prop :=
| FromEdsDomain base :
    present (edsDomainUrl ctx) = Some base ->
    ResolvesDomain net ctx base
| FromSourceUrl src u :
    present (edsDomainUrl ctx) = None ->
    present (sourceUrl ctx) = Some src ->
    new_URL net src = Returned u ->
    ResolvesDomain net ctx (protocol u ++ "//" ++ hostname u).

(** The logging contract of the loader as documented: whenever it fails, by
    a network failure, a non-success status or a body that is not JSON, some
    warning it printed shows the attempted address or the status. *)
Definition failures_show_address_or_status : Prop :=
  forall net blockName ctx base,
    ResolvesDomain net ctx base ->
    let schemaUrl := schemaUrlOf base blockName in
    (forall e, fetch net schemaUrl = Thrown e ->
       exists entry, entry ∈ logs (fetchBlockSchema net blockName ctx)
                     /\ mentions schemaUrl entry = true)
    /\ (forall response, fetch net schemaUrl = Returned response ->
          ok response = false \/ (exists e, json response = Thrown e) ->
          exists entry, entry ∈ logs (fetchBlockSchema net blockName ctx)
                        /\ (mentions schemaUrl entry = true
                            \/ mentions (show_nat (status response)) entry = true)).

Definition liveCtx : Ctx :=
  mkCtx (Some "org") (Some "site") (Some "https://main--site--org.aem.live")
    (Some "") None true false true None.

(** A platform whose [fetch] rejects. *)
Definition offlineNet : Net := {|
  new_URL _ := Thrown (JsError "Invalid URL");
  fetch _ := Thrown (JsError "Network connection lost.")
|}.

(** A platform that answers every request with [status], [ok] as the
    status says, and an HTML body. *)
Definition htmlNet (status : nat) : Net := {|
  new_URL _ := Thrown (JsError "Invalid URL");
  fetch _ :=
    Returned (mkResponse ((200 <=? status) && (status <=? 299))%nat status
                (Thrown (JsError "Unexpected token '<' is not valid JSON")))
|}.

(** ** The request context ([context.ts]) *)

(** What [new URL(...)] gives [getCtx]: protocol and host as above, the
    path, and the decoded query parameters in order. *)
Record ParsedURL : Type := mkParsedURL {
  origin : URL;
  pathname : string;
  searchParams : list (string * string)
}.

(** [searchParams.get(name)]: the first value under [name], or [null]. *)
Definition searchParams_get (params : list (string * string)) (name : string)
  : option string :=
  snd <$> List.find (fun kv => String.eqb kv.1 name) params.

(** [x === s] for [x : string | null]. *)
Definition strict_eq (x : option string) (s : string) : bool :=
  match x with
  | Some t => String.eqb t s
  | None => false
  end.

(** [s.split(sep)] for a one-character separator. *)
Fixpoint String_split (sep : ascii) (s : string) : list string :=
  match s with
  | EmptyString => [""]
  | String c rest =>
      if Ascii.eqb c sep then "" :: String_split sep rest
      else
        match String_split sep rest with
        | w :: ws => String c w :: ws
        | [] => [String c ""]
        end
  end.

(** [parts.join(sep)]. *)
Fixpoint Array_join (sep : string) (parts : list string) : string :=
  match parts with
  | [] => ""
  | w :: ws =>
      match ws with
      | [] => w
      | _ :: _ => w ++ sep ++ Array_join sep ws
      end
  end.

(** [throw new Error(message)]. *)
Definition throw_Error {A} (message : string) : M A :=
  mkM [] (Thrown (JsError message)).

(** [error instanceof Error ? error.message : String(error)]. *)
Definition message_of (error : Exn) : string :=
  match error with JsError m => m end.

Section Context.
(** The [URL] constructor of the platform. *)
Variable URL_ctor : string -> Outcome ParsedURL.

Definition getBaseDomain (url : string) : M string :=
  try_catch
    (urlObj ← lift (URL_ctor url);
     mret (protocol (origin urlObj) ++ "//" ++ hostname (origin urlObj)))
    (fun error => throw_Error ("Invalid URL format: " ++ url)).

Definition getCtx (url : string) : M Ctx :=
  urlObj ← lift (URL_ctor url);
  let get := searchParams_get (searchParams urlObj) in
  let compact := strict_eq (get "compact") "true" in
  let includeHead := negb (strict_eq (get "head") "false") in
  let useSchema := strict_eq (get "schema") "true" in
  let usePreview := strict_eq (get "preview") "true" in
  let transformer := present (get "transformer") in
  match present (get "url") with
  | Some sourceUrlParam =>
      try_catch
        (sourceUrl ← lift (URL_ctor sourceUrlParam);
         baseDomain ← getBaseDomain sourceUrlParam;
         mret (mkCtx None None (Some baseDomain) None (Some sourceUrlParam)
                 useSchema compact includeHead transformer))
        (fun error =>
           throw_Error ("Invalid URL parameter: " ++ sourceUrlParam ++ ". "
                        ++ message_of error))
  | None =>
      let parts := String_split "/" (pathname urlObj) in
      let org := parts !! 1%nat in
      let site := parts !! 2%nat in
      let rest := drop 3 parts in
      match present org, present site with
      | Some org, Some site =>
          mret (mkCtx (Some org) (Some site)
                  (Some ("https://main--" ++ site ++ "--" ++ org ++ ".aem."
                         ++ (if usePreview then "page" else "live")))
                  (Some (Array_join "/" rest))
                  None useSchema compact includeHead transformer)
      | _, _ => throw_Error "Usage: /org/site/path or ?url=https://domain.com/path"
      end
  end.
End Context.

(** A [URL] constructor for examples: [https://host/path?k=v&...] with a
    host free of [/], [?] and [:]; anything else does not parse. *)
Fixpoint break_at (stop : ascii -> bool) (s : string) : string * string :=
  match s with
  | EmptyString => ("", "")
  | String c rest =>
      if stop c then ("", s)
      else let '(a, b) := break_at stop rest in (String c a, b)
  end.

Definition parseParam (kv : string) : string * string :=
  let '(k, v) := break_at (Ascii.eqb "=") kv in
  (k, match v with String _ v' => v' | EmptyString => "" end).

Definition httpsURL (url : string) : Outcome ParsedURL :=
  if String.prefix "https://" url then
    let after := String.substring 8 (String.length url - 8) url in
    let '(host, tail) := break_at (fun c => Ascii.eqb c "/" || Ascii.eqb c "?")%bool after in
    let '(path, query) := break_at (Ascii.eqb "?") tail in
    if String.eqb host "" then Thrown (JsError "Invalid URL")
    else
      Returned (mkParsedURL (mkURL "https:" host)
                  (if String.eqb path "" then "/" else path)
                  (match query with
                   | String _ qs =>
                       if String.eqb qs "" then [] else map parseParam (String_split "&" qs)
                   | EmptyString => []
                   end))
  else Thrown (JsError "Invalid URL").

(** ** Vocabulary of the further statements *)

(** A value in which every leaf is truthy and every sequence and mapping is
    non-empty, with distinct keys, at every depth.  A leaf is an attribute
    value or a text; a truthy leaf can be a list of tokens without any
    token, which JavaScript takes for true. *)
Inductive Compact : Value -> Prop :=
| Compact_leaf p : truthy p = true -> Compact (VLeaf p)
| Compact_array x l : Forall Compact (x :: l) -> Compact (VArray (x :: l))
| Compact_object x o :
    NoDup (x :: o).*1 ->
    Forall (fun kv => Compact kv.2) (x :: o) ->
    Compact (VObject (x :: o)).

(** The one warning the engine itself prints. *)
Definition unsupportedTypeWarning (entry : LogEntry) : Prop :=
  exists t, entry = Warn ("Unsupported schema type: " ++ t) None.

(** The same schema with the annotations that only describe it dropped, at
    every depth: [description] and [format]. *)
Fixpoint erase_annotations (p : SchemaProperty) : SchemaProperty :=
  match p with
  | mkSchemaProperty t _ sel attr _ fl req it =>
      mkSchemaProperty t None sel attr None
        (option_map (map (fun ns => (ns.1, erase_annotations ns.2))) fl)
        req
        (option_map erase_annotations it)
  end.

Definition erase_root_annotations (s : BlockSchema) : BlockSchema :=
  mkBlockSchema None None None
    (option_map (map (fun ns => (ns.1, erase_annotations ns.2))) (root_fields s))
    (root_required s).

(** First and last character of a string. *)
Definition first_char (s : string) : option ascii :=
  match s with
  | String c _ => Some c
  | EmptyString => None
  end.

Fixpoint last_char (s : string) : option ascii :=
  match s with
  | EmptyString => None
  | String c rest =>
      match rest with
      | EmptyString => Some c
      | String _ _ => last_char rest
      end
  end.

(** The teaser schema with a title, descriptions and a format. *)
Definition annotatedTeaserSchema : BlockSchema :=
  mkBlockSchema (Some "https://json-schema.org/draft/2020-12/schema")
    (Some "Teaser") (Some "A teaser block")
    (Some [("title", mkSchemaProperty (Some "string") (Some "The heading")
                       (Some "h2") None (Some "text") None None None);
           ("broken", stringProp (Some "[") None);
           ("body", mkSchemaProperty (Some "string") (Some "The copy")
                      (Some "p") None None None None None)]) None.

(** A platform that serves [schema] as JSON at every address, and a context
    that has only a source URL. *)
Definition servingNet (schema : BlockSchema) : Net := {|
  new_URL url :=
    match httpsURL url with
    | Returned u => Returned (origin u)
    | Thrown e => Thrown e
    end;
  fetch _ := Returned (mkResponse true 200 (Returned (Some schema)))
|}.
Definition sourceOnlyCtx (src : string) : Ctx :=
  mkCtx None None None None (Some src) true false true None.

(** A legacy request, what the [URL] constructor makes of it, and its
    context. *)
Definition legacyRequest : string :=
  "https://w.dev/adobecom/aem-live/developer/markup?preview=true".
Definition legacyParsed : ParsedURL :=
  mkParsedURL (mkURL "https:" "w.dev") "/adobecom/aem-live/developer/markup"
    [("preview", "true")].
Definition legacyCtx : Ctx :=
  mkCtx (Some "adobecom") (Some "aem-live")
    (Some "https://main--aem-live--adobecom.aem.page")
    (Some "developer/markup") None false false true None.

(** [<p>  padded text </p>] *)
Definition paddedParagraph : Element := el "p" [] [inr "  padded text "].


(** ** Fields with integer-like names *)



(** A schema whose only root field is named [__proto__] and reads the text
    of the first [p]. *)
Definition protoSchema : BlockSchema :=
  mkBlockSchema None None None
    (Some [("__proto__", stringProp (Some "p") (Some "text"))]) None.


(** [s.includes(c)] for a character. *)
Fixpoint contains_char (c : ascii) (s : string) : bool :=
  match s with
  | EmptyString => false
  | String x rest => (Ascii.eqb x c || contains_char c rest)%bool
  end.

(** ** White space at the ends of a string *)

(** The string begins with a white-space character: one byte, or the two or
    three bytes of one outside ASCII. *)
Definition starts_with_space (s : string) : bool :=
  match s with
  | EmptyString => false
  | String c1 r1 =>
      (is_space c1
       || match r1 with
          | EmptyString => false
          | String c2 r2 =>
              is_space2 c1 c2
              || match r2 with
                 | EmptyString => false
                 | String c3 _ => is_space3 c1 c2 c3
                 end
          end)%bool
  end.

(** The same read on the reversed string. *)
Definition starts_with_space_reversed (s : string) : bool :=
  match s with
  | EmptyString => false
  | String c1 r1 =>
      (is_space c1
       || match r1 with
          | EmptyString => false
          | String c2 r2 =>
              is_space2 c2 c1
              || match r2 with
                 | EmptyString => false
                 | String c3 _ => is_space3 c3 c2 c1
                 end
          end)%bool
  end.

(** The string ends with a white-space character. *)
Definition ends_with_space (s : string) : bool :=
  starts_with_space_reversed (rev_string s "").

(** [<p>] whose text is a no-break space, a space, [padded text], an
    ideographic space and a line feed. *)
Definition nbspParagraph : Element :=
  el "p" []
    [inr (String "194" (String "160" " padded text"
          +:+ String "227" (String "128" (String "128" (String "010" "")))))].
(** * Properties *)

Open Scope list_scope.

(** ** The monad *)

Lemma M_eta {A} (m : M A) : mkM (logs m) (outcome m) = m.
Proof. by destruct m. Qed.

Lemma prefixed_nil {A} (m : M A) : prefixed [] m = m.
Proof. apply M_eta. Qed.

Lemma bind_returned {A B} (m : M A) (k : A -> M B) l a :
  m = mkM l (Returned a) -> m ≫= k = prefixed l (k a).
Proof. by intros ->. Qed.

Lemma bind_mret {A B} (a : A) (k : A -> M B) : mret a ≫= k = k a.
Proof. rewrite (bind_returned _ _ [] a); [apply prefixed_nil | done]. Qed.

Lemma bind_lift_returned {A B} (a : A) (k : A -> M B) :
  lift (Returned a) ≫= k = k a.
Proof. apply (bind_mret a k). Qed.

Lemma outcome_bind {A B} (m : M A) (k : A -> M B) :
  outcome (m ≫= k) =
  match outcome m with Returned a => outcome (k a) | Thrown e => Thrown e end.
Proof. unfold mbind, M_bind. by destruct (outcome m). Qed.

Lemma bind_ext {A B} (m : M A) (k k' : A -> M B) :
  (forall a, k a = k' a) -> m ≫= k = m ≫= k'.
Proof.
  intros H. unfold mbind, M_bind. destruct (outcome m); [by rewrite H | done].
Qed.

Lemma present_Some o s : present o = Some s -> o = Some s /\ s <> "".
Proof.
  destruct o as [t|]; simpl; [|done].
  destruct (String.eqb_spec t ""); [done|]. intros [= ->]. done.
Qed.

Lemma present_nonempty s : s <> "" -> present (Some s) = Some s.
Proof. intros H. simpl. by destruct (String.eqb_spec s ""). Qed.


(** ** The order of keys *)

Section KeyOrder.
Context {A : Type}.
Implicit Types (l : list (string * A)) (S : list (N * (string * A))).

Lemma index_entries_cons kv l :
  index_entries (kv :: l)
  = match array_index kv.1 with
    | Some i => (i, kv) :: index_entries l
    | None => index_entries l
    end.
Proof. unfold index_entries. cbn. by destruct (array_index kv.1). Qed.

Lemma other_entries_cons kv l :
  other_entries (kv :: l)
  = match array_index kv.1 with
    | Some _ => other_entries l
    | None => kv :: other_entries l
    end.
Proof. unfold other_entries. simpl. by destruct (array_index kv.1). Qed.

Lemma insert_by_index_Permutation x S : insert_by_index x S ≡ₚ x :: S.
Proof.
  induction S as [|y S IH]; simpl; [done|].
  destruct (x.1 <=? y.1)%N; [done|]. rewrite IH. apply Permutation_swap.
Qed.

Lemma sort_by_index_Permutation S : sort_by_index S ≡ₚ S.
Proof.
  induction S as [|x S IH]; simpl; [done|].
  by rewrite insert_by_index_Permutation, IH.
Qed.

Lemma entries_partition l : (index_entries l).*2 ++ other_entries l ≡ₚ l.
Proof.
  induction l as [|kv l IH]; [done|].
  rewrite index_entries_cons, other_entries_cons.
  destruct (array_index kv.1); simpl.
  - by rewrite IH.
  - rewrite <- Permutation_middle. by rewrite IH.
Qed.

Lemma Object_entries_Permutation l : Object_entries l ≡ₚ l.
Proof.
  unfold Object_entries. rewrite sort_by_index_Permutation. apply entries_partition.
Qed.


Lemma Object_entries_elem_of n l : n ∈ (Object_entries l).*1 <-> n ∈ l.*1.
Proof. by rewrite Object_entries_Permutation. Qed.









Lemma Forall_Object_entries (P : string * A -> Prop) l :
  Forall P l -> Forall P (Object_entries l).
Proof.
  rewrite !Forall_forall. intros H x Hx. apply H.
  by rewrite <- (Object_entries_Permutation l).
Qed.


End KeyOrder.




(** [Object_entries] looks at the keys only. *)
Lemma Object_entries_map {A B} (h : string * A -> B) (l : list (string * A)) :
  Object_entries (map (fun kv => (kv.1, h kv)) l)
  = map (fun kv => (kv.1, h kv)) (Object_entries l).
Proof.
  assert (Hins : forall (x : N * (string * A)) S,
            insert_by_index (x.1, (x.2.1, h x.2))
              (map (fun y => (y.1, (y.2.1, h y.2))) S)
            = map (fun y => (y.1, (y.2.1, h y.2))) (insert_by_index x S)).
  { intros x S. induction S as [|y S IH]; simpl; [done|].
    destruct (x.1 <=? y.1)%N; simpl; [done|]. by rewrite IH. }
  assert (Hsort : forall S : list (N * (string * A)),
            sort_by_index (map (fun y => (y.1, (y.2.1, h y.2))) S)
            = map (fun y => (y.1, (y.2.1, h y.2))) (sort_by_index S)).
  { induction S as [|x S IH]; simpl; [done|]. by rewrite IH, Hins. }
  unfold Object_entries. rewrite map_app. f_equal.
  - assert (Hidx : index_entries (map (fun kv => (kv.1, h kv)) l)
                   = map (fun y => (y.1, (y.2.1, h y.2))) (index_entries l)).
    { induction l as [|kv l IH]; [done|]. simpl map.
      rewrite !index_entries_cons. simpl. destruct (array_index kv.1); simpl; by rewrite IH. }
    rewrite Hidx, Hsort. generalize (sort_by_index (index_entries l)).
    intros S. induction S as [|y S IH]; [done|]. cbn. f_equal. exact IH.
  - induction l as [|kv l IH]; [done|]. simpl map.
    rewrite !other_entries_cons. simpl. destruct (array_index kv.1); simpl; by rewrite IH.
Qed.

(** ** Reading one element *)

Section ElementFacts.
Variable q : Facade.

Lemma extractValueFromElement_text element :
  extractValueFromElement q element "text" = PVString (trim (getText q element)).
Proof. reflexivity. Qed.

(** A truthy attribute value is returned as it is, untrimmed. *)
Lemma extractValueFromElement_attribute element name v :
  name <> "text" -> properties element !! name = Some v -> truthy v = true ->
  extractValueFromElement q element name = v.
Proof.
  intros Hn Hv Ht. unfold extractValueFromElement, get_property.
  destruct (String.eqb_spec name SCHEMA_CONSTANTS.TEXT) as [->|_]; [done|].
  by rewrite Hv, Ht.
Qed.

(** A name the element does not carry but every object inherits, such as
    [constructor] or [toString], reads as the inherited member, which is
    truthy: the text is not consulted. *)
Lemma extractValueFromElement_inherited element name :
  properties element !! name = None -> name ∈ Object_prototype_keys ->
  extractValueFromElement q element name = PVInherited name.
Proof.
  intros Hv Hin. unfold extractValueFromElement, get_property.
  destruct (String.eqb_spec name SCHEMA_CONSTANTS.TEXT) as [->|_].
  { exfalso. revert Hin. vm_compute. intros Hin.
    repeat (apply elem_of_cons in Hin as [Hin|Hin]; [discriminate|]).
    by apply elem_of_nil in Hin. }
  rewrite Hv. by rewrite bool_decide_eq_true_2.
Qed.

(** A name that the property lookup does not resolve, neither on the
    element nor by inheritance, gives the trimmed text. *)
Lemma extractValueFromElement_absent element name :
  get_property (properties element) name = None ->
  extractValueFromElement q element name = PVString (trim (getText q element)).
Proof.
  intros Hv. unfold extractValueFromElement.
  destruct (String.eqb name SCHEMA_CONSTANTS.TEXT); [done|]. by rewrite Hv.
Qed.

(** So does an attribute that is there with a falsy value, such as the
    empty string. *)
Lemma extractValueFromElement_falsy element name v :
  get_property (properties element) name = Some v -> truthy v = false ->
  extractValueFromElement q element name = PVString (trim (getText q element)).
Proof.
  intros Hv Ht. unfold extractValueFromElement.
  destruct (String.eqb name SCHEMA_CONSTANTS.TEXT); [done|]. by rewrite Hv, Ht.
Qed.

Lemma or_null_truthy v r : or_null v = Some r -> truthy_value r = true.
Proof.
  unfold or_null. destruct (truthy v) eqn:Ht; [|done]. by intros [= <-].
Qed.

(** The element a String property reads, once [findElement] has answered. *)
Lemma extractStringValue_found ctx p shared name e :
  findElement q ctx (x_eds_selector p) shared = mret (Some e) ->
  extractStringValue q ctx p shared name
  = mret (or_null (extractValueFromElement q e (attributeNameOf p name))).
Proof. intros H. unfold extractStringValue. rewrite H. by rewrite bind_mret. Qed.

Lemma extractStringValue_direct ctx p name :
  present (x_eds_selector p) = None ->
  extractStringValue q ctx p None name
  = mret (or_null (extractValueFromElement q ctx (attributeNameOf p name))).
Proof.
  intros H. unfold extractStringValue, findElement. rewrite H.
  by rewrite bind_mret.
Qed.
End ElementFacts.

(** ** String properties *)

(** C1, at the input where the code parts from it: on [<a href="">Y</a>] a
    String property reading [href] finds the attribute present with the
    empty value, yet returns the trimmed text ["Y"]: the text fallback is
    taken although the attribute is there. *)
Theorem C1_empty_attribute_reads_text :
  properties emptyHref !! "href" = Some (PVString "")
  /\ extractStringValue tagFacade emptyHref (stringProp None (Some "href")) None
       (Some "link")
     = mret (Some (VString "Y")).
Proof. split; vm_compute; reflexivity. Qed.

(** C2, as stated, fails for the selector that is the empty string: the
    code takes it for no selector, never queries it, and reads the shared
    element. *)
Lemma C2_empty_selector_reads_shared :
  ~ (forall (q : Facade) ctx p shared name sel,
       x_eds_selector p = Some sel ->
       select q sel ctx = Returned None ->
       extractStringValue q ctx p shared name = mret None).
Proof.
  intros claim.
  specialize (claim tagFacade card (stringProp (Some "") None) (Some linkXY)
                (Some "title") "" eq_refl eq_refl).
  vm_compute in claim. discriminate.
Qed.

(** C2, amended: a String property that declares a non-empty selector is
    omitted when the first-match query under the context element finds
    nothing, and its result never depends on the shared element: a miss is
    not retried against it. *)
Theorem C2_selector_miss_is_omission (q : Facade) (ctx : Element)
    (p : SchemaProperty) (name : option string) (sel : string) :
  x_eds_selector p = Some sel -> sel <> "" ->
  (forall shared, select q sel ctx = Returned None ->
     extractStringValue q ctx p shared name = mret None)
  /\ (forall shared shared',
        extractStringValue q ctx p shared name
        = extractStringValue q ctx p shared' name).
Proof.
  intros Hsel Hne. unfold extractStringValue, findElement.
  rewrite Hsel, (present_nonempty sel Hne).
  split.
  - intros shared Hmiss. rewrite Hmiss. by destruct shared.
  - intros shared shared'.
    destruct (select q sel ctx) as [[e|]|err]; [done| |done].
    by destruct shared, shared'.
Qed.

Lemma C2_selector_miss_is_omission_witness :
  select tagFacade "h2" card = Returned None
  /\ extractStringValue tagFacade card (stringProp (Some "h2") None)
       (Some linkXY) (Some "title") = mret None.
Proof.
  split; [reflexivity|].
  apply (C2_selector_miss_is_omission tagFacade card
           (stringProp (Some "h2") None) (Some "title") "h2");
    [reflexivity | discriminate | reflexivity].
Defined.

(** C6, as stated, fails for an attribute setting that is the empty string:
    it is passed over for the field's own name. *)
Lemma C6_empty_attribute_setting_skipped :
  ~ (forall p name a, x_eds_attribute p = Some a -> attributeNameOf p name = a).
Proof.
  intros claim.
  specialize (claim (stringProp None (Some "")) (Some "href") "" eq_refl).
  vm_compute in claim. discriminate.
Qed.

(** C6, amended: the attribute name a String property reads is its explicit
    attribute setting if that is non-empty, else the field's own name if
    that is non-empty, else the text sentinel; that name is the one handed
    to the element reader on every path that reads an element: on the
    element [findElement] answers, which is the first match of the
    property's selector, or the shared element when there is no selector,
    and on the context element itself when there is neither selector nor
    shared element; and [{type: string, attribute: "href"}] named [link] on
    an element with [href="X"] yields ["X"] whatever the element's text. *)
Theorem C6_attribute_name_priority (q : Facade) :
  (forall p name a, x_eds_attribute p = Some a -> a <> "" ->
     attributeNameOf p name = a)
  /\ (forall p name n, present (x_eds_attribute p) = None ->
        name = Some n -> n <> "" -> attributeNameOf p name = n)
  /\ (forall p name, present (x_eds_attribute p) = None ->
        present name = None -> attributeNameOf p name = SCHEMA_CONSTANTS.TEXT)
  /\ (forall ctx p shared name e,
        findElement q ctx (x_eds_selector p) shared = mret (Some e) ->
        extractStringValue q ctx p shared name
        = mret (or_null (extractValueFromElement q e (attributeNameOf p name))))
  /\ (forall ctx p shared name sel e,
        present (x_eds_selector p) = Some sel ->
        select q sel ctx = Returned (Some e) ->
        extractStringValue q ctx p shared name
        = mret (or_null (extractValueFromElement q e (attributeNameOf p name))))
  /\ (forall ctx p name sh,
        present (x_eds_selector p) = None ->
        extractStringValue q ctx p (Some sh) name
        = mret (or_null (extractValueFromElement q sh (attributeNameOf p name))))
  /\ (forall ctx p name,
        present (x_eds_selector p) = None ->
        extractStringValue q ctx p None name
        = mret (or_null (extractValueFromElement q ctx (attributeNameOf p name))))
  /\ (forall e X, properties e !! "href" = Some (PVString X) -> X <> "" ->
        extractStringValue q e (stringProp None (Some "href")) None (Some "link")
        = mret (Some (VString X))).
Proof.
  repeat split.
  - intros p name a H Hne. unfold attributeNameOf.
    by rewrite H, (present_nonempty a Hne).
  - intros p name n Ha -> Hne. unfold attributeNameOf.
    by rewrite Ha, (present_nonempty n Hne).
  - intros p name Ha Hn. unfold attributeNameOf. by rewrite Ha, Hn.
  - intros. by apply extractStringValue_found.
  - intros ctx p shared name sel e Hsel He.
    apply extractStringValue_found. unfold findElement. rewrite Hsel.
    by rewrite He.
  - intros ctx p name sh Hsel.
    apply extractStringValue_found. unfold findElement. by rewrite Hsel.
  - intros. by apply extractStringValue_direct.
  - intros e X HX Hne.
    rewrite extractStringValue_direct by reflexivity.
    change (attributeNameOf _ _) with "href".
    rewrite (extractValueFromElement_attribute q e "href" (PVString X)); try done.
    + unfold or_null. simpl. by destruct (String.eqb_spec X "").
    + simpl. by destruct (String.eqb_spec X "").
Qed.

Lemma C6_attribute_name_priority_witness :
  textOf linkXY = "Y"
  /\ extractStringValue tagFacade linkXY (stringProp None (Some "href")) None
       (Some "link") = mret (Some (VString "X")).
Proof.
  split; [reflexivity|].
  apply (C6_attribute_name_priority tagFacade); [reflexivity | discriminate].
Defined.

(** ** The dispatcher *)

Lemma extractSchemaValue_unfold q ctx p shared name :
  extractSchemaValue q ctx p shared name =
  match present (type_ p) with
  | None => mret None
  | Some propertyType =>
      if String.eqb propertyType "string" then extractStringValue q ctx p shared name
      else if String.eqb propertyType "array" then extractArrayValue q ctx p
      else if String.eqb propertyType "object" then extractObjectValue q ctx p
      else warn ("Unsupported schema type: " +:+ propertyType) None;; mret None
  end.
Proof. by destruct p. Qed.


Lemma extractSchemaValue_array q ctx p shared name :
  present (type_ p) = Some "array" ->
  extractSchemaValue q ctx p shared name = extractArrayValue q ctx p.
Proof. intros H. rewrite extractSchemaValue_unfold. by rewrite H. Qed.

Lemma extractSchemaValue_object q ctx p shared name :
  present (type_ p) = Some "object" ->
  extractSchemaValue q ctx p shared name = extractObjectValue q ctx p.
Proof. intros H. rewrite extractSchemaValue_unfold. by rewrite H. Qed.

(** The field loop of an Object property, over fields paired with their
    extraction, is the loop over the fields themselves. *)
Lemma runFields_objectLoop
    (self : Element -> SchemaProperty -> option Element -> option string
            -> M (option Value)) ctx shared l acc :
  runFields (map (fun ns => (ns.1, self ctx ns.2 shared (Some ns.1))) l) acc
  = objectLoop self ctx shared l acc.
Proof.
  revert acc. induction l as [|[n s] l IH]; intros acc; [done|].
  simpl. apply bind_ext. intros v. apply IH.
Qed.

(** The Object handler as the source has it: the loop runs over
    [Object.entries] of the declared fields. *)
Lemma extractObjectValue_unfold q ctx p :
  extractObjectValue q ctx p =
  match fields p with
  | None => mret None
  | Some entries =>
      sharedElement ←
        match present (x_eds_selector p) with
        | Some objectSelector => lift (select q objectSelector ctx)
        | None => mret None
        end;
      result ← objectLoop (extractSchemaValue q) (default ctx sharedElement)
                 sharedElement (Object_entries entries) [];
      mret (match result with [] => None | _ :: _ => Some (VObject result) end)
  end.
Proof.
  unfold extractObjectValue, extractObjectValueF.
  destruct (fields p) as [entries|]; [|done].
  apply bind_ext. intros sh.
  rewrite (Object_entries_map
             (fun ns => extractSchemaValue q (default ctx sh) ns.2 sh (Some ns.1))).
  by rewrite <- runFields_objectLoop.
Qed.

(** Whatever the engine returns is truthy: [.filter(Boolean)] drops the
    omitted results and nothing else. *)
Lemma extractStringValue_truthy q ctx p shared name v :
  outcome (extractStringValue q ctx p shared name) = Returned (Some v) ->
  truthy_value v = true.
Proof.
  unfold extractStringValue. rewrite outcome_bind.
  destruct (outcome (findElement _ _ _ _)) as [[e|]|err]; [| |done].
  - simpl. intros [= H]. by apply or_null_truthy in H.
  - destruct (present _), shared; simpl; try done.
    intros [= H]. by apply or_null_truthy in H.
Qed.

Lemma extractArrayValue_shape q ctx p v :
  outcome (extractArrayValue q ctx p) = Returned (Some v) ->
  exists x l, v = VArray (x :: l).
Proof.
  unfold extractArrayValue, extractArrayValueF.
  destruct (present _) as [sel|]; [|done].
  destruct (items p) as [it|]; [|done].
  rewrite outcome_bind.
  destruct (outcome (lift _)) as [[|e els]|err]; [done| |done].
  rewrite outcome_bind.
  destruct (outcome (mapM _ _)) as [mapped|err]; [|done]. simpl.
  destruct (filter_Boolean mapped) as [|x l]; [done|].
  intros [= <-]. eauto.
Qed.

Lemma extractObjectValue_shape q ctx p v :
  outcome (extractObjectValue q ctx p) = Returned (Some v) ->
  exists x o, v = VObject (x :: o).
Proof.
  rewrite extractObjectValue_unfold.
  destruct (fields p) as [entries|]; [|done].
  rewrite outcome_bind.
  destruct (outcome _) as [sh|err]; [|done].
  rewrite outcome_bind.
  destruct (outcome (objectLoop _ _ _ _ _)) as [[|x o]|err]; [done| |done].
  simpl. intros [= <-]. eauto.
Qed.

Lemma extractSchemaValue_truthy q ctx p shared name v :
  outcome (extractSchemaValue q ctx p shared name) = Returned (Some v) ->
  truthy_value v = true.
Proof.
  rewrite extractSchemaValue_unfold.
  destruct (present (type_ p)) as [t|]; [|done].
  destruct (String.eqb t "string"); [apply extractStringValue_truthy|].
  destruct (String.eqb t "array").
  { intros (x & l & ->)%extractArrayValue_shape. done. }
  destruct (String.eqb t "object").
  { intros (x & l & ->)%extractObjectValue_shape. done. }
  done.
Qed.

(** ** Loops *)






Section LoopFacts.
Variable self :
  Element -> SchemaProperty -> option Element -> option string -> M (option Value).

Lemma mapM_returns {A B} (f : A -> M B) l bs :
  Forall2 (fun a b => outcome (f a) = Returned b) l bs ->
  outcome (mapM f l) = Returned bs.
Proof.
  induction 1 as [|a b l bs Ha _ IH]; [done|]. simpl.
  rewrite outcome_bind, Ha, outcome_bind, IH. done.
Qed.

End LoopFacts.

Lemma filter_Boolean_truthy (rs : list (option Value)) :
  Forall (fun r => forall v, r = Some v -> truthy_value v = true) rs ->
  filter_Boolean rs = omap id rs.
Proof.
  induction rs as [|r rs IH]; intros H; [done|].
  apply Forall_cons in H as [Hr Hrs]. specialize (IH Hrs).
  destruct r as [v|]; cbn.
  - rewrite (Hr v eq_refl). cbn. f_equal. exact IH.
  - exact IH.
Qed.

(** ** Array properties *)

(** C4: without a selector (none, or the empty string, which is never
    queried) or without an items schema an Array property is omitted;
    otherwise the matches of the selector under the context element
    are extracted one by one, in the order the query lists them, against the
    items schema with neither shared element nor field name, the results
    that are not omitted are kept in that order, and the property is that
    sequence if it is non-empty and omitted otherwise; the result is never an
    empty sequence. *)
Theorem C4_array_extraction (q : Facade) (ctx : Element) (p : SchemaProperty) :
  (present (x_eds_selector p) = None \/ items p = None ->
     extractArrayValue q ctx p = mret None)
  /\ (forall sel it els rs,
        present (x_eds_selector p) = Some sel -> items p = Some it ->
        selectAll q sel ctx = Returned els ->
        Forall2 (fun e r => outcome (extractSchemaValue q e it None None) = Returned r)
          els rs ->
        outcome (extractArrayValue q ctx p)
        = Returned (match omap id rs with
                    | [] => None
                    | x :: l => Some (VArray (x :: l))
                    end))
  /\ outcome (extractArrayValue q ctx p) <> Returned (Some (VArray [])).
Proof.
  repeat split.
  - unfold extractArrayValue, extractArrayValueF.
    intros [-> | ->]; [done|]. by destruct (present _).
  - intros sel it els rs Hsel Hit Hall Hrs.
    unfold extractArrayValue, extractArrayValueF. rewrite Hsel, Hit.
    rewrite outcome_bind. simpl. rewrite Hall.
    destruct Hrs as [|e r els rs He Hrs]; [done|].
    assert (Hall2 : Forall2 (fun e r =>
              outcome (extractSchemaValue q e it None None) = Returned r)
              (e :: els) (r :: rs)) by by constructor.
    rewrite outcome_bind, (mapM_returns _ _ _ Hall2). cbv beta zeta.
    rewrite filter_Boolean_truthy; [by destruct (omap id (r :: rs))|].
    clear -Hall2. induction Hall2 as [|e' r' els' rs' He' _ IH]; constructor; [|done].
    intros v ->. by apply extractSchemaValue_truthy in He'.
  - intros (x & l & [=])%extractArrayValue_shape.
Qed.

Lemma C4_array_extraction_witness :
  outcome (extractArrayValue tagFacade tagList tagsArray)
  = Returned (Some (VArray [VString "x"; VString "y"])).
Proof.
  apply (proj1 (proj2 (C4_array_extraction tagFacade tagList tagsArray))
           "li" (stringProp None None)
           [el "li" [] [inr "x"]; el "li" [] [inr " "]; el "li" [] [inr "y"]]
           [Some (VString "x"); None; Some (VString "y")]);
    [reflexivity | reflexivity | reflexivity |].
  repeat constructor.
Defined.

(** ** Object properties *)




(** ** The block driver *)

Lemma extractBlockField_spec q node blockName n s data :
  extractBlockField q node blockName n s data
  = mkM (fieldLogs blockName n (extractSchemaValue q node s None (Some n)))
        (Returned (storeField data
                     (n, fieldValue (extractSchemaValue q node s None (Some n))))).
Proof.
  unfold extractBlockField, fieldLogs, fieldValue, storeField, try_catch.
  destruct (extractSchemaValue q node s None (Some n)) as [l [r|e]];
    unfold mbind, M_bind; simpl; done.
Qed.

Lemma blockLoop_spec q node blockName entries data :
  blockLoop q node blockName entries data
  = mkM (concat (map (fun ns => fieldLogs blockName ns.1
                                  (extractSchemaValue q node ns.2 None (Some ns.1)))
                   entries))
        (Returned
           (fold_left storeField
              (zip entries.*1
                 (map (fun ns => fieldValue
                                   (extractSchemaValue q node ns.2 None (Some ns.1)))
                    entries))
              data)).
Proof.
  revert data. induction entries as [|[n s] entries IH]; intros data; [done|].
  simpl. rewrite extractBlockField_spec.
  erewrite bind_returned by reflexivity. unfold prefixed. by rewrite IH.
Qed.




(** A root field named [__proto__] is extracted, yet the result holds no
    key for it: with no other field the driver reports omission. *)
Example proto_field_leaves_no_key :
  outcome (extractSchemaValue tagFacade card (stringProp (Some "p") (Some "text"))
             None (Some "__proto__")) = Returned (Some (VString "body"))
  /\ extractBlockWithSchema tagFacade (Some card) (Some protoSchema) "cards"
     = mret None.
Proof. split; vm_compute; reflexivity. Qed.

(** C10: without a block element, without a schema, or with a schema that
    has no root field mapping, the driver prints one warning naming the
    block and returns omission; nothing else happens, whatever the tree
    queries would answer. *)
Theorem C10_invalid_input (q : Facade) (blockNode : option Element)
    (schema : option BlockSchema) (blockName : string) :
  blockNode = None \/ schema = None
    \/ (exists s, schema = Some s /\ root_fields s = None) ->
  extractBlockWithSchema q blockNode schema blockName
  = mkM [Warn ("Invalid input for extractBlockWithSchema: blockName=" +:+ blockName)
           None]
        (Returned None).
Proof.
  intros [-> | [-> | (s & -> & Hs)]]; unfold extractBlockWithSchema.
  - done.
  - by destruct blockNode.
  - rewrite Hs. by destruct blockNode.
Qed.

Lemma C10_invalid_input_witness :
  extractBlockWithSchema tagFacade None (Some teaserSchema) "teaser"
  = mkM [Warn "Invalid input for extractBlockWithSchema: blockName=teaser" None]
        (Returned None)
  /\ extractBlockWithSchema tagFacade (Some teaser)
       (Some (mkBlockSchema None (Some "Teaser") None None None)) "teaser"
     = mkM [Warn "Invalid input for extractBlockWithSchema: blockName=teaser" None]
        (Returned None).
Proof.
  split.
  - apply (C10_invalid_input tagFacade None (Some teaserSchema) "teaser").
    left. reflexivity.
  - apply (C10_invalid_input tagFacade (Some teaser)
             (Some (mkBlockSchema None (Some "Teaser") None None None)) "teaser").
    right. right. eexists. split; reflexivity.
Defined.

(** ** Unsupported type tags *)

(** A property without a type tag, or with the empty one, is omitted
    silently by the input validation. *)
Lemma extractSchemaValue_untyped q ctx p shared name :
  present (type_ p) = None -> extractSchemaValue q ctx p shared name = mret None.
Proof. intros H. rewrite extractSchemaValue_unfold. by rewrite H. Qed.

(** C8, as stated, fails for the type tag that is the empty string: it is
    none of the three, and no diagnostic is printed. *)
Lemma C8_blank_type_is_silent :
  ~ (forall (q : Facade) ctx p shared name t,
       type_ p = Some t ->
       t <> "string" -> t <> "array" -> t <> "object" ->
       logs (extractSchemaValue q ctx p shared name) <> []).
Proof.
  intros claim.
  apply (claim tagFacade teaser blankTypeProp None (Some "count") "");
    [reflexivity | discriminate | discriminate | discriminate |].
  rewrite extractSchemaValue_untyped; reflexivity.
Qed.

(** C8, amended: a property whose type tag is a non-empty string and none
    of [string], [array] and [object] makes the dispatcher print the
    diagnostic naming the tag and return omission; as a child of an Object
    or a root field of the driver it costs that one warning, and the loop
    goes on with the remaining fields from the same partial result. *)
Theorem C8_unsupported_type (q : Facade) (p : SchemaProperty) (t : string) :
  type_ p = Some t -> t <> "" ->
  t <> "string" -> t <> "array" -> t <> "object" ->
  (forall ctx shared name,
     extractSchemaValue q ctx p shared name
     = mkM [Warn ("Unsupported schema type: " +:+ t) None] (Returned None))
  /\ (forall ctx shared n rest result,
        extractObjectFields q ctx shared ((n, p) :: rest) result
        = prefixed [Warn ("Unsupported schema type: " +:+ t) None]
            (extractObjectFields q ctx shared rest result))
  /\ (forall blockNode blockName n rest data,
        blockLoop q blockNode blockName ((n, p) :: rest) data
        = prefixed [Warn ("Unsupported schema type: " +:+ t) None]
            (blockLoop q blockNode blockName rest data)).
Proof.
  intros Ht%(f_equal present) Hne Hs Ha Ho.
  rewrite (present_nonempty t Hne) in Ht.
  assert (Hp : forall ctx shared name,
     extractSchemaValue q ctx p shared name
     = mkM [Warn ("Unsupported schema type: " +:+ t) None] (Returned None)).
  { intros ctx shared name. rewrite extractSchemaValue_unfold, Ht.
    destruct (String.eqb_spec t "string"); [done|].
    destruct (String.eqb_spec t "array"); [done|].
    destruct (String.eqb_spec t "object"); [done|]. done. }
  repeat split; [exact Hp | |].
  - intros ctx shared n rest result. unfold extractObjectFields. simpl.
    by erewrite bind_returned by apply Hp.
  - intros blockNode blockName n rest data. simpl.
    rewrite extractBlockField_spec, Hp.
    by erewrite bind_returned by reflexivity.
Qed.

Lemma C8_unsupported_type_witness :
  extractSchemaValue tagFacade teaser numberProp None (Some "count")
  = mkM [Warn "Unsupported schema type: number" None] (Returned None).
Proof.
  apply (C8_unsupported_type tagFacade numberProp "number");
    [reflexivity | discriminate | discriminate | discriminate | discriminate].
Defined.

(** ** The [required] lists *)

(** Induction on a schema property, through its field mapping and its
    items schema. *)
Lemma SchemaProperty_nested_ind (P : SchemaProperty -> Prop) :
  (forall t d sel attr fmt fl req it,
     match fl with
     | Some entries => Forall (fun ns => P ns.2) entries
     | None => True
     end ->
     match it with Some i => P i | None => True end ->
     P (mkSchemaProperty t d sel attr fmt fl req it)) ->
  forall p, P p.
Proof.
  intros step. fix IH 1. intros [t d sel attr fmt fl req it]. apply step.
  - destruct fl as [entries|]; [|exact I].
    exact ((fix go (l : list (string * SchemaProperty))
              : Forall (fun ns => P ns.2) l :=
              match l with
              | [] => @List.Forall_nil _ _
              | ns :: l' => @List.Forall_cons _ _ ns l' (IH ns.2) (go l')
              end) entries).
  - destruct it as [i|]; [apply IH | exact I].
Qed.

Lemma mapM_ext {A B} (f g : A -> M B) l :
  (forall a, f a = g a) -> mapM f l = mapM g l.
Proof. intros H. induction l as [|a l IH]; [done|]. simpl. by rewrite H, IH. Qed.

Section EraseFacts.
Variable q : Facade.

Lemma objectLoop_erase self ctx shared entries result :
  Forall (fun ns => forall c sh name,
            self c (erase_required ns.2) sh name = self c ns.2 sh name) entries ->
  objectLoop self ctx shared
    (map (fun ns => (ns.1, erase_required ns.2)) entries) result
  = objectLoop self ctx shared entries result.
Proof.
  intros H. revert result.
  induction H as [|[n s] entries Hs _ IH]; intros result; [done|].
  simpl in *. rewrite Hs. apply bind_ext. intros value. apply IH.
Qed.

(** The engine does not look at [required]. *)
Lemma extractSchemaValue_erase_required p :
  forall ctx shared name,
    extractSchemaValue q ctx (erase_required p) shared name
    = extractSchemaValue q ctx p shared name.
Proof.
  induction p as [t d sel attr fmt fl req it IHfl IHit]
    using SchemaProperty_nested_ind.
  intros ctx shared name. rewrite !extractSchemaValue_unfold.
  change (type_ (erase_required _)) with t. simpl type_.
  destruct (present t) as [ty|]; [|done].
  destruct (String.eqb ty "string"); [done|].
  destruct (String.eqb ty "array").
  { unfold extractArrayValue, extractArrayValueF. simpl.
    destruct (present sel); [|done].
    destruct it as [i|]; [|done]. simpl.
    apply bind_ext. intros [|e els]; [done|].
    by rewrite (mapM_ext _ (fun element => extractSchemaValue q element i None None)). }
  destruct (String.eqb ty "object"); [|done].
  rewrite !extractObjectValue_unfold. simpl.
  destruct fl as [entries|]; [|done]. simpl.
  apply bind_ext. intros sharedElement.
  rewrite (Object_entries_map (fun ns => erase_required ns.2)).
  rewrite objectLoop_erase; [done|]. by apply Forall_Object_entries.
Qed.

Lemma blockLoop_erase node blockName entries data :
  blockLoop q node blockName
    (map (fun ns => (ns.1, erase_required ns.2)) entries) data
  = blockLoop q node blockName entries data.
Proof.
  revert data. induction entries as [|[n s] entries IH]; intros data; [done|].
  simpl. unfold extractBlockField.
  rewrite extractSchemaValue_erase_required. apply bind_ext. intros d. apply IH.
Qed.

Lemma extractBlockWithSchema_erase node schema blockName :
  extractBlockWithSchema q node (Some (erase_root_required schema)) blockName
  = extractBlockWithSchema q node (Some schema) blockName.
Proof.
  unfold extractBlockWithSchema. destruct node as [n|]; [|done]. simpl.
  destruct (root_fields schema) as [entries|]; [|done]. simpl.
  rewrite (Object_entries_map (fun ns => erase_required ns.2)).
  by rewrite blockLoop_erase.
Qed.
End EraseFacts.

(** C9: two block schemas that are the same once every [required] list, at
    the root and inside every nested property, is dropped give the same
    result on every block element: the same value, the same warnings. *)
Theorem C9_required_is_ignored (q : Facade) (blockNode : option Element)
    (schema1 schema2 : BlockSchema) (blockName : string) :
  same_but_required schema1 schema2 ->
  extractBlockWithSchema q blockNode (Some schema1) blockName
  = extractBlockWithSchema q blockNode (Some schema2) blockName.
Proof.
  intros H.
  rewrite <- (extractBlockWithSchema_erase q blockNode schema1).
  rewrite <- (extractBlockWithSchema_erase q blockNode schema2).
  by rewrite H.
Qed.

Lemma C9_required_is_ignored_witness :
  strictSchema <> laxSchema
  /\ extractBlockWithSchema tagFacade (Some card) (Some strictSchema) "card"
     = extractBlockWithSchema tagFacade (Some card) (Some laxSchema) "card".
Proof.
  split; [discriminate|].
  apply (C9_required_is_ignored tagFacade (Some card) strictSchema laxSchema "card").
  reflexivity.
Defined.

(** ** The schema loader *)

Lemma outcome_try_catch {A} (m : M A) (h : Exn -> M A) :
  outcome (try_catch m h) =
  match outcome m with Returned a => Returned a | Thrown e => outcome (h e) end.
Proof. unfold try_catch. by destruct (outcome m) eqn:E. Qed.

Lemma base_domain_nonempty a b : a +:+ "//" +:+ b <> "".
Proof. by destruct a. Qed.

Section LoaderFacts.
Variable net : Net.

(** Once the domain is settled, the loader is its [fetch] under the outer
    [catch]. *)
Lemma fetchBlockSchema_resolved blockName ctx base :
  ResolvesDomain net ctx base ->
  fetchBlockSchema net blockName ctx
  = try_catch
      (response ← lift (fetch net (schemaUrlOf base blockName));
       if ok response then
         schema ← lift (json response); mret schema
       else
         warn ("Schema not found for block " +:+ blockName +:+ " at "
               +:+ schemaUrlOf base blockName
               +:+ " (" +:+ show_nat (status response) +:+ ")") None;;
         mret None)
      (fun error =>
         warn ("Failed to fetch schema for block " +:+ blockName +:+ ":")
           (Some error);;
         mret None).
Proof.
  intros [b Hb | src u He Hs Hu]; unfold fetchBlockSchema.
  - rewrite Hb. rewrite bind_mret. by rewrite Hb.
  - rewrite He, Hs, Hu.
    match goal with
    | |- try_catch (?m ≫= _) _ = _ =>
        replace m with
          (mret (M:=M) (Continue (R:=option BlockSchema)
                          (Some (protocol u +:+ "//" +:+ hostname u))))
          by reflexivity
    end.
    rewrite bind_mret.
    by rewrite (present_nonempty _ (base_domain_nonempty _ _)).
Qed.
End LoaderFacts.

(** C7, as stated, fails: when [fetch] rejects, the only warning printed
    names the block and shows the error; the attempted address is not in
    it (and there is no status to show). *)
Lemma C7_failure_warning_lacks_address : ~ failures_show_address_or_status.
Proof.
  intros claim.
  destruct (claim offlineNet "hero" liveCtx "https://main--site--org.aem.live"
              (FromEdsDomain offlineNet liveCtx "https://main--site--org.aem.live" eq_refl))
    as [Hthrown _].
  destruct (Hthrown (JsError "Network connection lost.") eq_refl)
    as (entry & Hin & Hshown).
  change (logs (fetchBlockSchema offlineNet "hero" liveCtx))
    with [Warn "Failed to fetch schema for block hero:"
            (Some (JsError "Network connection lost."))] in Hin.
  apply list_elem_of_singleton in Hin as ->.
  vm_compute in Hshown. discriminate.
Qed.

(** C7, amended: the loader never throws to its caller.  Once the domain is
    settled, a rejected [fetch] and a body that is not JSON each give [null]
    after one warning that names the block and carries the error; a
    non-success status gives [null] after one warning that names the block,
    the attempted address and the status. *)
Theorem C7_loader_never_throws (net : Net) (blockName : string) (ctx : Ctx) :
  (exists r, outcome (fetchBlockSchema net blockName ctx) = Returned r)
  /\ (forall base,
        ResolvesDomain net ctx base ->
        (forall e,
           fetch net (schemaUrlOf base blockName) = Thrown e ->
           fetchBlockSchema net blockName ctx
           = mkM [Warn ("Failed to fetch schema for block " +:+ blockName +:+ ":")
                    (Some e)]
                 (Returned None))
        /\ (forall response e,
              fetch net (schemaUrlOf base blockName) = Returned response ->
              ok response = true -> json response = Thrown e ->
              fetchBlockSchema net blockName ctx
              = mkM [Warn ("Failed to fetch schema for block " +:+ blockName +:+ ":")
                       (Some e)]
                    (Returned None))
        /\ (forall response,
              fetch net (schemaUrlOf base blockName) = Returned response ->
              ok response = false ->
              fetchBlockSchema net blockName ctx
              = mkM [Warn ("Schema not found for block " +:+ blockName +:+ " at "
                           +:+ schemaUrlOf base blockName
                           +:+ " (" +:+ show_nat (status response) +:+ ")") None]
                    (Returned None))).
Proof.
  split.
  - unfold fetchBlockSchema. rewrite outcome_try_catch.
    destruct (outcome _) as [r|e]; eauto.
  - intros base Hbase. rewrite (fetchBlockSchema_resolved net blockName ctx base Hbase).
    repeat split.
    + intros e ->. done.
    + intros response e -> Hok Hjson.
      rewrite bind_lift_returned, Hok, Hjson. done.
    + intros response -> Hok.
      rewrite bind_lift_returned, Hok. done.
Qed.

Lemma C7_loader_never_throws_witness :
  fetchBlockSchema (htmlNet 404) "hero" liveCtx
  = mkM [Warn ("Schema not found for block hero at "
               +:+ "https://main--site--org.aem.live/blocks/hero/hero.schema.json"
               +:+ " (404)") None]
        (Returned None)
  /\ fetchBlockSchema (htmlNet 200) "hero" liveCtx
     = mkM [Warn "Failed to fetch schema for block hero:"
              (Some (JsError "Unexpected token '<' is not valid JSON"))]
           (Returned None).
Proof.
  split.
  - apply (proj2 (proj2 (proj2 (C7_loader_never_throws (htmlNet 404) "hero" liveCtx)
                           "https://main--site--org.aem.live"
                           (FromEdsDomain (htmlNet 404) liveCtx
                              "https://main--site--org.aem.live" eq_refl)))
             (mkResponse false 404
                (Thrown (JsError "Unexpected token '<' is not valid JSON"))));
      reflexivity.
  - apply (proj1 (proj2 (proj2 (C7_loader_never_throws (htmlNet 200) "hero" liveCtx)
                           "https://main--site--org.aem.live"
                           (FromEdsDomain (htmlNet 200) liveCtx
                              "https://main--site--org.aem.live" eq_refl)))
             (mkResponse true 200
                (Thrown (JsError "Unexpected token '<' is not valid JSON"))));
      reflexivity.
Defined.


(** ** Worked examples *)

(** [{title: {string, selector h2}, tags: {array, selector li, items:
    string}}] on [<div><h2>Hi</h2><ul><li> x </li><li>y</li></ul></div>]. *)
Example end_to_end :
  extractBlockWithSchema tagFacade (Some demoBlock) (Some demoSchema) "demo"
  = mret (Some [("title", VString "Hi");
                ("tags", VArray [VString "x"; VString "y"])]).
Proof. vm_compute. reflexivity. Qed.

(** A root field [title] without selector or attribute reads the block's
    own [title] attribute. *)
Example property_name_fallback :
  extractBlockWithSchema tagFacade (Some (el "div" [("title", "Z")] [inr "text"]))
    (Some (mkBlockSchema None None None (Some [("title", stringProp None None)]) None))
    "demo"
  = mret (Some [("title", VString "Z")]).
Proof. vm_compute. reflexivity. Qed.

(** An Array whose selector matches nothing is omitted. *)
Example array_without_matches :
  extractArrayValue tagFacade teaser tagsArray = mret None.
Proof. vm_compute. reflexivity. Qed.

(** * Further properties of the engine *)

Lemma logs_bind {A B} (m : M A) (k : A -> M B) :
  logs (m ≫= k) =
  logs m ++ match outcome m with Returned a => logs (k a) | Thrown _ => [] end.
Proof.
  unfold mbind, M_bind. destruct (outcome m); simpl; [done|].
  by rewrite app_nil_r.
Qed.

Lemma Forall_logs_bind {A B} (P : LogEntry -> Prop) (m : M A) (k : A -> M B) :
  Forall P (logs m) -> (forall a, Forall P (logs (k a))) ->
  Forall P (logs (m ≫= k)).
Proof.
  intros Hm Hk. rewrite logs_bind. apply Forall_app. split; [done|].
  destruct (outcome m); [apply Hk | constructor].
Qed.

Lemma mapM_outcome_inv {A B} (f : A -> M B) l bs :
  outcome (mapM f l) = Returned bs ->
  Forall2 (fun a b => outcome (f a) = Returned b) l bs.
Proof.
  revert bs. induction l as [|a l IH]; intros bs; simpl.
  - intros [= <-]. constructor.
  - rewrite outcome_bind. destruct (outcome (f a)) as [b|e] eqn:Ha; [|done].
    rewrite outcome_bind. destruct (outcome (mapM f l)) as [bs'|e] eqn:Hl; [|done].
    intros [= <-]. constructor; [done|]. by apply IH.
Qed.

Lemma Forall_logs_mapM {A B} (P : LogEntry -> Prop) (f : A -> M B) l :
  (forall a, Forall P (logs (f a))) -> Forall P (logs (mapM f l)).
Proof.
  intros Hf. induction l as [|a l IH]; simpl; [constructor|].
  apply Forall_logs_bind; [apply Hf|]. intros b.
  apply Forall_logs_bind; [apply IH|]. intros bs. constructor.
Qed.

Lemma objectLoop_outcome_inv self ctx shared entries acc res :
  outcome (objectLoop self ctx shared entries acc) = Returned res ->
  exists rs,
    Forall2 (fun ns r => outcome (self ctx ns.2 shared (Some ns.1)) = Returned r)
      entries rs
    /\ res = fold_left storeField (zip entries.*1 rs) acc.
Proof.
  revert acc. induction entries as [|[n s] entries IH]; intros acc; simpl.
  - intros [= <-]. exists []. split; [constructor | done].
  - rewrite outcome_bind.
    destruct (outcome (self ctx s shared (Some n))) as [r|e] eqn:Hr; [|done].
    intros (rs & Hrs & ->)%IH. exists (r :: rs). split; [by constructor | done].
Qed.

Lemma Forall_logs_objectLoop (P : LogEntry -> Prop) self ctx shared entries acc :
  Forall (fun ns => forall c sh name, Forall P (logs (self c ns.2 sh name))) entries ->
  Forall P (logs (objectLoop self ctx shared entries acc)).
Proof.
  intros H. revert acc. induction H as [|[n s] entries Hs _ IH]; intros acc; simpl.
  - constructor.
  - apply Forall_logs_bind; [apply Hs|]. intros v. apply IH.
Qed.

(** *** Assigning into a result object *)

Lemma obj_put_keys o k v :
  (obj_put o k v).*1 = if bool_decide (k ∈ o.*1) then o.*1 else o.*1 ++ [k].
Proof.
  induction o as [|[k' v'] o IH]; [done|].
  change (obj_put ((k', v') :: o) k v)
    with (if String.eqb k' k then (k', v) :: o else (k', v') :: obj_put o k v).
  destruct (String.eqb_spec k' k) as [->|Hne]; rewrite !fmap_cons; simpl fst.
  - rewrite bool_decide_eq_true_2; [done | left].
  - rewrite IH. case_bool_decide as Hk.
    + rewrite bool_decide_eq_true_2; [done | by right].
    + rewrite bool_decide_eq_false_2; [done|].
      intros [?|?]%elem_of_cons; congruence.
Qed.

Lemma obj_set_NoDup o k v : NoDup o.*1 -> NoDup (obj_set o k v).*1.
Proof.
  intros H. unfold obj_set. destruct (String.eqb k "__proto__"); [done|].
  rewrite obj_put_keys. case_bool_decide as Hk; [done|].
  apply NoDup_app. split; [done|]. split; [|apply NoDup_singleton].
  intros x Hx ->%list_elem_of_singleton. done.
Qed.

Lemma obj_set_elem_of o k v k' :
  k' ∈ (obj_set o k v).*1 -> k' ∈ o.*1 \/ k' = k.
Proof.
  unfold obj_set. destruct (String.eqb k "__proto__"); [by left|].
  rewrite obj_put_keys. case_bool_decide; [by left|].
  intros [?|?%list_elem_of_singleton]%elem_of_app; auto.
Qed.

Lemma obj_set_Forall (P : string * Value -> Prop) o k v :
  (forall k', P (k', v)) -> Forall P o -> Forall P (obj_set o k v).
Proof.
  intros Hv Ho. unfold obj_set. destruct (String.eqb k "__proto__"); [done|].
  induction Ho as [|[k' v'] o Hx Ho IH]; simpl.
  - by repeat constructor.
  - destruct (String.eqb k' k); constructor; auto.
Qed.

Lemma fold_storeField_inv names rs acc :
  NoDup acc.*1 -> Forall (fun kv => Compact kv.2) acc ->
  Forall (fun r => forall v, r = Some v -> Compact v) rs ->
  NoDup (fold_left storeField (zip names rs) acc).*1
  /\ Forall (fun kv => Compact kv.2) (fold_left storeField (zip names rs) acc)
  /\ (forall k, k ∈ (fold_left storeField (zip names rs) acc).*1 ->
        k ∈ acc.*1 \/ k ∈ names).
Proof.
  revert rs acc. induction names as [|n names IH]; intros rs acc Hnd Hc Hrs.
  { simpl. auto. }
  destruct rs as [|r rs]; simpl; [auto|].
  apply Forall_cons in Hrs as [Hr Hrs].
  destruct r as [v|]; unfold storeField at 2 4 6; simpl.
  - destruct (IH rs (obj_set acc n v)) as (H1 & H2 & H3); try done.
    + by apply obj_set_NoDup.
    + apply obj_set_Forall; [|done]. intros k0. simpl. by apply Hr.
    + repeat split; [done | done |].
      intros k [Hk|Hk]%H3; [|right; by right].
      apply obj_set_elem_of in Hk as [?| ->]; [by left|].
      right. left.
  - destruct (IH rs acc) as (H1 & H2 & H3); try done.
    repeat split; [done | done |].
    intros k [Hk|Hk]%H3; [by left | right; by right].
Qed.

(** *** What the engine returns *)

Lemma extractStringValue_leaf q ctx p shared name v :
  outcome (extractStringValue q ctx p shared name) = Returned (Some v) ->
  exists pv, v = VLeaf pv /\ truthy pv = true.
Proof.
  assert (Hor : forall pv, or_null pv = Some v ->
                  exists pv, v = VLeaf pv /\ truthy pv = true).
  { intros pv. unfold or_null. destruct (truthy pv) eqn:Ht; [|done].
    intros [= <-]. eauto. }
  unfold extractStringValue. rewrite outcome_bind.
  destruct (outcome (findElement _ _ _ _)) as [[e|]|err]; [| |done].
  - simpl. intros [= H]. eauto.
  - destruct (present _), shared; simpl; try done. intros [= H]. eauto.
Qed.

Lemma filter_Boolean_elem (mapped : list (option Value)) v :
  v ∈ filter_Boolean mapped -> Some v ∈ mapped.
Proof.
  unfold filter_Boolean. rewrite list_elem_of_omap.
  intros ([w|] & Hin & Hw); [|done].
  destruct (truthy_value w); [|done]. by injection Hw as ->.
Qed.

Lemma extractSchemaValue_compact (q : Facade) (p : SchemaProperty) :
  forall ctx shared name v,
    outcome (extractSchemaValue q ctx p shared name) = Returned (Some v) ->
    Compact v.
Proof.
  induction p as [t d sel attr fmt fl req it IHfl IHit]
    using SchemaProperty_nested_ind.
  intros ctx shared name v. rewrite extractSchemaValue_unfold. simpl type_.
  destruct (present t) as [ty|]; [|done].
  destruct (String.eqb ty "string").
  { intros (pv & -> & Hpv)%extractStringValue_leaf. by constructor. }
  destruct (String.eqb ty "array").
  { unfold extractArrayValue, extractArrayValueF. simpl.
    destruct (present sel) as [s|]; [|done].
    destruct it as [i|]; [|done].
    rewrite outcome_bind.
    destruct (selectAll q s ctx) as [[|e els]|err]; [done| |done].
    cbn [outcome]. rewrite outcome_bind.
    destruct (outcome (mapM _ _)) as [mapped|err] eqn:Hm; [|done].
    apply mapM_outcome_inv in Hm. cbv beta zeta.
    destruct (filter_Boolean mapped) as [|x l] eqn:Hf; [done|].
    intros [= <-]. constructor. rewrite <- Hf.
    apply Forall_forall. intros w Hw%filter_Boolean_elem.
    apply list_elem_of_lookup in Hw as [j Hj].
    destruct (Forall2_lookup_r _ _ _ _ _ Hm Hj) as (a & _ & Ha).
    by apply (IHit _ _ _ _ Ha). }
  destruct (String.eqb ty "object"); [|done].
  rewrite extractObjectValue_unfold. simpl.
  destruct fl as [entries|]; [|done].
  rewrite outcome_bind. destruct (outcome _) as [sh|err]; [|done].
  rewrite outcome_bind.
  destruct (outcome (objectLoop _ _ _ _ _)) as [res|err] eqn:Hl; [|done].
  apply objectLoop_outcome_inv in Hl as (rs & Hrs & ->).
  destruct (fold_storeField_inv (Object_entries entries).*1 rs []) as (Hnd & Hc & _).
  - constructor.
  - constructor.
  - apply Forall_forall. intros r Hr w ->.
    apply list_elem_of_lookup in Hr as [j Hj].
    destruct (Forall2_lookup_r _ _ _ _ _ Hrs Hj) as (ns & Hns & Ha).
    apply list_elem_of_lookup_2 in Hns.
    apply Forall_Object_entries in IHfl.
    rewrite Forall_forall in IHfl. by apply (IHfl ns Hns _ _ _ _ Ha).
  - simpl. destruct (fold_left _ _ _) as [|x o]; [done|].
    intros [= <-]. by constructor.
Qed.

(** *** What the engine prints *)

Lemma extractStringValue_silent q ctx p shared name :
  logs (extractStringValue q ctx p shared name) = [].
Proof.
  unfold extractStringValue, findElement. rewrite logs_bind.
  destruct (present (x_eds_selector p)) as [s|]; simpl.
  - by destruct (select q s ctx) as [[e|]|err], shared.
  - by destruct shared.
Qed.

Lemma extractSchemaValue_logs (q : Facade) (p : SchemaProperty) :
  forall ctx shared name,
    Forall unsupportedTypeWarning (logs (extractSchemaValue q ctx p shared name)).
Proof.
  induction p as [t d sel attr fmt fl req it IHfl IHit]
    using SchemaProperty_nested_ind.
  intros ctx shared name. rewrite extractSchemaValue_unfold. simpl type_.
  destruct (present t) as [ty|]; [|constructor].
  destruct (String.eqb ty "string").
  { rewrite extractStringValue_silent. constructor. }
  destruct (String.eqb ty "array").
  { unfold extractArrayValue, extractArrayValueF. simpl.
    destruct (present sel) as [s|]; [|constructor].
    destruct it as [i|]; [|constructor].
    apply Forall_logs_bind; [constructor|]. intros [|e els]; [constructor|].
    apply Forall_logs_bind; [|intros; constructor].
    apply Forall_logs_mapM. intros a. apply IHit. }
  destruct (String.eqb ty "object").
  { rewrite extractObjectValue_unfold. simpl.
    destruct fl as [entries|]; [|constructor].
    apply Forall_logs_bind.
    { destruct (present sel); constructor. }
    intros sh. apply Forall_logs_bind; [|intros; constructor].
    apply Forall_logs_objectLoop, Forall_Object_entries.
    eapply Forall_impl; [exact IHfl|]. intros ns Hns c s n. apply Hns. }
  repeat constructor. by exists ty.
Qed.

(** X1: a property that is not a String does not see what its parent hands
    down: neither the shared element nor the field name changes its
    result. *)
Theorem non_string_ignores_shared_and_name (q : Facade) (p : SchemaProperty)
    (ctx : Element) (shared shared' : option Element) (name name' : option string) :
  present (type_ p) <> Some "string" ->
  extractSchemaValue q ctx p shared name = extractSchemaValue q ctx p shared' name'.
Proof.
  intros Ht. rewrite !extractSchemaValue_unfold.
  destruct (present (type_ p)) as [ty|]; [|done].
  destruct (String.eqb_spec ty "string") as [->|_]; [done|]. done.
Qed.

Lemma non_string_ignores_shared_and_name_witness :
  extractSchemaValue tagFacade card linkObject (Some linkXY) (Some "inner")
  = extractSchemaValue tagFacade card linkObject None None.
Proof.
  apply (non_string_ignores_shared_and_name tagFacade linkObject card). discriminate.
Defined.

(** *** Exceptions below the driver *)




Lemma mapM_throws {A B} (f : A -> M B) pre bs a post e :
  Forall2 (fun x b => outcome (f x) = Returned b) pre bs ->
  outcome (f a) = Thrown e ->
  outcome (mapM f (pre ++ a :: post)) = Thrown e.
Proof.
  intros Hpre He. induction Hpre as [|x b pre bs Hx _ IH]; simpl.
  - by rewrite outcome_bind, He.
  - by rewrite outcome_bind, Hx, outcome_bind, IH.
Qed.

(** X3: nor is anything caught inside an Array.  If the items before some
    match extract and that match throws, the whole Array property throws
    that error: the values already extracted are lost with it. *)
Theorem array_item_error_propagates (q : Facade) (ctx : Element)
    (p : SchemaProperty) (sel : string) (it : SchemaProperty)
    (pre post : list Element) (rs : list (option Value)) (a : Element) (e : Exn) :
  present (x_eds_selector p) = Some sel -> items p = Some it ->
  selectAll q sel ctx = Returned (pre ++ a :: post) ->
  Forall2 (fun x r => outcome (extractSchemaValue q x it None None) = Returned r)
    pre rs ->
  outcome (extractSchemaValue q a it None None) = Thrown e ->
  outcome (extractArrayValue q ctx p) = Thrown e.
Proof.
  intros Hsel Hit Hall Hpre He.
  unfold extractArrayValue, extractArrayValueF. rewrite Hsel, Hit, outcome_bind.
  simpl. rewrite Hall.
  destruct (pre ++ a :: post) as [|x l] eqn:Hl; [by destruct pre|].
  rewrite <- Hl, outcome_bind.
  by rewrite (mapM_throws _ pre rs a post e Hpre He).
Qed.

Lemma array_item_error_propagates_witness :
  outcome (extractArrayValue tagFacade tagList
             (arrayProp (Some "li") (Some (stringProp (Some "[") None))))
  = Thrown (JsError "unparsable selector: [").
Proof.
  apply (array_item_error_propagates tagFacade tagList _ "li"
           (stringProp (Some "[") None) []
           [el "li" [] [inr " "]; el "li" [] [inr "y"]] [] (el "li" [] [inr "x"]));
    [reflexivity | reflexivity | reflexivity | constructor | reflexivity].
Defined.

(** * Further properties of the driver *)

Lemma fieldValue_compact q node s n v :
  fieldValue (extractSchemaValue q node s None (Some n)) = Some v -> Compact v.
Proof.
  unfold fieldValue.
  destruct (outcome (extractSchemaValue q node s None (Some n))) as [r|e] eqn:H;
    [|done].
  intros ->. by apply (extractSchemaValue_compact q s node None (Some n)).
Qed.

(** X4: whatever it is given, the driver returns: no exception of the tree
    queries reaches its caller. *)
Theorem driver_never_throws (q : Facade) (blockNode : option Element)
    (schema : option BlockSchema) (blockName : string) :
  exists r, outcome (extractBlockWithSchema q blockNode schema blockName) = Returned r.
Proof.
  unfold extractBlockWithSchema.
  destruct blockNode as [b|]; [|by eexists].
  destruct schema as [s|]; [|by eexists].
  destruct (root_fields s) as [entries|]; [|by eexists].
  rewrite outcome_bind, blockLoop_spec. simpl. by eexists.
Qed.

(** X5: no sequence or mapping that the engine builds is empty, and no leaf
    is falsy.  A value the engine returns is compact at every depth (truthy
    leaves, non-empty sequences, non-empty mappings with distinct keys); the
    mapping the driver returns is compact too, and each of its keys is a
    declared root field.  A truthy leaf need not be non-empty: an attribute
    whose value is the empty list of tokens is truthy and is returned as it
    is. *)
Theorem results_are_compact (q : Facade) :
  (forall p ctx shared name v,
     outcome (extractSchemaValue q ctx p shared name) = Returned (Some v) ->
     Compact v)
  /\ (forall blockNode schema blockName entries o,
        root_fields schema = Some entries ->
        outcome (extractBlockWithSchema q (Some blockNode) (Some schema) blockName)
        = Returned (Some o) ->
        Compact (VObject o) /\ (forall k, k ∈ o.*1 -> k ∈ entries.*1))
  /\ (forall e attribute,
        attribute <> "" -> attribute <> "text" ->
        properties e !! attribute = Some (PVList []) ->
        extractStringValue q e (stringProp None (Some attribute)) None None
        = mret (Some (VLeaf (PVList [])))).
Proof.
  split; [intros p; apply extractSchemaValue_compact|].
  split; [|intros e attribute Hne Htext Hlist;
           rewrite extractStringValue_direct by reflexivity;
           unfold attributeNameOf; cbn [x_eds_attribute stringProp];
           rewrite (present_nonempty attribute Hne);
           by rewrite (extractValueFromElement_attribute q e attribute (PVList []))].
  intros b s n entries o Hf. unfold extractBlockWithSchema. rewrite Hf.
  rewrite outcome_bind, blockLoop_spec. simpl.
  set (values := map (fun ns => fieldValue (extractSchemaValue q b ns.2 None (Some ns.1)))
                   (Object_entries entries)).
  destruct (fold_storeField_inv (Object_entries entries).*1 values [])
    as (Hnd & Hc & Hk).
  - constructor.
  - constructor.
  - apply Forall_forall. intros r Hr v ->.
    apply list_elem_of_In, in_map_iff in Hr as (ns & Hns & _).
    by apply fieldValue_compact in Hns.
  - destruct (fold_left _ _ _) as [|x o'] eqn:Hfold; [done|].
    intros [= <-]. split; [by constructor|].
    intros k Hin. destruct (Hk k Hin) as [Hnil|?]; [|by apply Object_entries_elem_of].
    by apply elem_of_nil in Hnil.
Qed.

Lemma results_are_compact_witness :
  Compact (VObject [("title", VString "Hi"); ("body", VString "body")])
  /\ (forall k, k ∈ ["title"; "body"] -> k ∈ ["title"; "broken"; "body"]).
Proof.
  apply (proj1 (proj2 (results_are_compact tagFacade)) teaser teaserSchema "teaser"
           [("title", stringProp (Some "h2") None);
            ("broken", stringProp (Some "[") None);
            ("body", stringProp (Some "p") None)]);
    reflexivity.
Defined.

(** X6: the block name reaches the warnings only: the value the driver
    returns is the same under any two block names. *)
Theorem blockName_is_diagnostic_only (q : Facade) (blockNode : option Element)
    (schema : option BlockSchema) (blockName blockName' : string) :
  outcome (extractBlockWithSchema q blockNode schema blockName)
  = outcome (extractBlockWithSchema q blockNode schema blockName').
Proof.
  unfold extractBlockWithSchema.
  destruct blockNode as [b|]; [|done].
  destruct schema as [s|]; [|done].
  destruct (root_fields s) as [entries|]; [|done].
  by rewrite !outcome_bind, !blockLoop_spec.
Qed.

(** X7: the warnings are of three kinds.  The engine prints only the
    unsupported-type diagnostic, whatever the schema (a String property
    prints nothing); the driver adds only the invalid-input warning and, for
    a root field whose extraction threw, the warning naming that declared
    field and the block. *)
Theorem warnings_are_of_three_kinds (q : Facade) :
  (forall ctx p shared name, logs (extractStringValue q ctx p shared name) = [])
  /\ (forall ctx p shared name,
        Forall unsupportedTypeWarning (logs (extractSchemaValue q ctx p shared name)))
  /\ (forall blockNode schema blockName,
        Forall (fun entry =>
                  unsupportedTypeWarning entry
                  \/ entry = Warn ("Invalid input for extractBlockWithSchema: blockName="
                                   +:+ blockName) None
                  \/ exists s entries n error,
                       schema = Some s /\ root_fields s = Some entries
                       /\ n ∈ entries.*1
                       /\ entry = Warn ("Error extracting property " +:+ n
                                        +:+ " for block " +:+ blockName +:+ ":")
                                    (Some error))
          (logs (extractBlockWithSchema q blockNode schema blockName))).
Proof.
  split; [intros; apply extractStringValue_silent|].
  split; [intros; apply extractSchemaValue_logs|].
  intros blockNode schema blockName.
  assert (Hinvalid : forall P : LogEntry -> Prop,
            P (Warn ("Invalid input for extractBlockWithSchema: blockName="
                     +:+ blockName) None) ->
            Forall P (logs (invalidInput blockName))).
  { intros P HP. by repeat constructor. }
  unfold extractBlockWithSchema.
  destruct blockNode as [b|]; [|apply Hinvalid; auto].
  destruct schema as [s|]; [|apply Hinvalid; auto].
  destruct (root_fields s) as [entries|] eqn:Hf; [|apply Hinvalid; auto].
  rewrite logs_bind, blockLoop_spec. simpl. rewrite app_nil_r.
  apply Forall_concat, Forall_forall. intros l Hl.
  apply list_elem_of_In, in_map_iff in Hl as ([n p] & <- & Hin).
  unfold fieldLogs. simpl. apply Forall_app. split.
  - eapply Forall_impl; [apply extractSchemaValue_logs|]. auto.
  - destruct (outcome _) as [r|error]; constructor; [|constructor].
    right. right. exists s, entries, n, error. repeat split; try done.
    apply list_elem_of_In in Hin. apply (list_elem_of_fmap_2 fst) in Hin.
    simpl in Hin. exact (proj1 (Object_entries_elem_of n entries) Hin).
Qed.

(** *** Annotations *)

Section AnnotationFacts.
Variable q : Facade.
Variable g : SchemaProperty -> SchemaProperty.

Lemma objectLoop_map self ctx shared entries result :
  Forall (fun ns => forall c sh name, self c (g ns.2) sh name = self c ns.2 sh name)
    entries ->
  objectLoop self ctx shared (map (fun ns => (ns.1, g ns.2)) entries) result
  = objectLoop self ctx shared entries result.
Proof.
  intros H. revert result.
  induction H as [|[n s] entries Hs _ IH]; intros result; [done|].
  simpl in *. rewrite Hs. apply bind_ext. intros value. apply IH.
Qed.

Lemma blockLoop_map node blockName entries data :
  (forall p c sh name,
     extractSchemaValue q c (g p) sh name = extractSchemaValue q c p sh name) ->
  blockLoop q node blockName (map (fun ns => (ns.1, g ns.2)) entries) data
  = blockLoop q node blockName entries data.
Proof.
  intros Hg. revert data.
  induction entries as [|[n s] entries IH]; intros data; [done|].
  simpl. unfold extractBlockField. rewrite Hg. apply bind_ext. intros d. apply IH.
Qed.
End AnnotationFacts.

Lemma extractSchemaValue_erase_annotations q p :
  forall ctx shared name,
    extractSchemaValue q ctx (erase_annotations p) shared name
    = extractSchemaValue q ctx p shared name.
Proof.
  induction p as [t d sel attr fmt fl req it IHfl IHit]
    using SchemaProperty_nested_ind.
  intros ctx shared name. rewrite !extractSchemaValue_unfold. simpl type_.
  destruct (present t) as [ty|]; [|done].
  destruct (String.eqb ty "string"); [done|].
  destruct (String.eqb ty "array").
  { unfold extractArrayValue, extractArrayValueF. simpl.
    destruct (present sel); [|done].
    destruct it as [i|]; [|done]. simpl.
    apply bind_ext. intros [|e els]; [done|].
    by rewrite (mapM_ext _ (fun element => extractSchemaValue q element i None None)). }
  destruct (String.eqb ty "object"); [|done].
  rewrite !extractObjectValue_unfold. simpl.
  destruct fl as [entries|]; [|done]. simpl.
  apply bind_ext. intros sharedElement.
  rewrite (Object_entries_map (fun ns => erase_annotations ns.2)).
  rewrite (objectLoop_map erase_annotations); [done|].
  by apply Forall_Object_entries.
Qed.

(** X8: the annotations of a schema never influence extraction.  Two block
    schemas that are the same once [$schema], [title] and [description] of
    the root and [description] and [format] of every property, at every
    depth, are dropped give the same value and the same warnings on every
    block element. *)
Theorem annotations_are_ignored (q : Facade) (blockNode : option Element)
    (schema1 schema2 : BlockSchema) (blockName : string) :
  erase_root_annotations schema1 = erase_root_annotations schema2 ->
  extractBlockWithSchema q blockNode (Some schema1) blockName
  = extractBlockWithSchema q blockNode (Some schema2) blockName.
Proof.
  assert (Herase : forall s,
            extractBlockWithSchema q blockNode (Some (erase_root_annotations s)) blockName
            = extractBlockWithSchema q blockNode (Some s) blockName).
  { intros s. unfold extractBlockWithSchema. destruct blockNode as [n|]; [|done].
    simpl. destruct (root_fields s) as [entries|]; [|done]. simpl.
    rewrite (Object_entries_map (fun ns => erase_annotations ns.2)).
    rewrite (blockLoop_map q erase_annotations); [done|].
    intros p. apply extractSchemaValue_erase_annotations. }
  intros H. rewrite <- (Herase schema1), <- (Herase schema2). by rewrite H.
Qed.

Lemma annotations_are_ignored_witness :
  annotatedTeaserSchema <> teaserSchema
  /\ extractBlockWithSchema tagFacade (Some teaser) (Some annotatedTeaserSchema) "teaser"
     = extractBlockWithSchema tagFacade (Some teaser) (Some teaserSchema) "teaser".
Proof.
  split; [discriminate|].
  apply (annotations_are_ignored tagFacade (Some teaser) annotatedTeaserSchema
           teaserSchema "teaser").
  reflexivity.
Defined.

(** * Further properties of the loader *)

Section LoaderCases.
Variable net : Net.

Lemma fetchBlockSchema_no_domain blockName ctx :
  present (edsDomainUrl ctx) = None -> present (sourceUrl ctx) = None ->
  fetchBlockSchema net blockName ctx
  = mkM [Warn ("No domain available for fetching schema for block " +:+ blockName)
           None]
        (Returned None).
Proof.
  intros He Hs. unfold fetchBlockSchema. rewrite He, Hs, bind_mret. by rewrite He.
Qed.

Lemma fetchBlockSchema_bad_sourceUrl blockName ctx src e :
  present (edsDomainUrl ctx) = None -> present (sourceUrl ctx) = Some src ->
  new_URL net src = Thrown e ->
  fetchBlockSchema net blockName ctx
  = mkM [Warn ("Failed to extract domain from sourceUrl: " +:+ src) (Some e)]
        (Returned None).
Proof.
  intros He Hs Hu. unfold fetchBlockSchema. by rewrite He, Hs, Hu.
Qed.

(** The loader falls in exactly one of three cases. *)
Lemma fetchBlockSchema_cases ctx :
  (exists base, ResolvesDomain net ctx base)
  \/ (present (edsDomainUrl ctx) = None /\ present (sourceUrl ctx) = None)
  \/ (exists src e, present (edsDomainUrl ctx) = None
                    /\ present (sourceUrl ctx) = Some src
                    /\ new_URL net src = Thrown e).
Proof.
  destruct (present (edsDomainUrl ctx)) as [base|] eqn:He.
  { left. exists base. by constructor. }
  destruct (present (sourceUrl ctx)) as [src|] eqn:Hs; [|by right; left].
  destruct (new_URL net src) as [u|e] eqn:Hu.
  - left. eexists. by eapply FromSourceUrl.
  - right. right. by exists src, e.
Qed.
End LoaderCases.

(** X9: a call of the loader prints at most one warning, and none when it
    returns a schema. *)
Theorem loader_warns_at_most_once (net : Net) (blockName : string) (ctx : Ctx) :
  length (logs (fetchBlockSchema net blockName ctx)) <= 1
  /\ (forall schema,
        outcome (fetchBlockSchema net blockName ctx) = Returned (Some schema) ->
        logs (fetchBlockSchema net blockName ctx) = []).
Proof.
  destruct (fetchBlockSchema_cases net ctx)
    as [[base Hbase] | [[He Hs] | (src & e & He & Hs & Hu)]].
  - rewrite (fetchBlockSchema_resolved net blockName ctx base Hbase).
    destruct (fetch net (schemaUrlOf base blockName)) as [[okay st js]|e];
      [|split; [simpl; lia | done]].
    rewrite bind_lift_returned. simpl ok.
    destruct okay; [|split; [simpl; lia | done]].
    destruct js as [[s|]|e]; split; simpl; try lia; done.
  - rewrite (fetchBlockSchema_no_domain net blockName ctx He Hs).
    split; [simpl; lia | done].
  - rewrite (fetchBlockSchema_bad_sourceUrl net blockName ctx src e He Hs Hu).
    split; [simpl; lia | done].
Qed.

(** X10: when no domain can be settled the loader gives up before any
    request: with neither [edsDomainUrl] nor [sourceUrl] (absent or empty)
    it warns that no domain is available; with only a [sourceUrl] that the
    [URL] constructor rejects it warns with that URL and the error.  Either
    way it returns [null], whatever [fetch] would answer. *)
Theorem loader_without_domain (net : Net) (blockName : string) (ctx : Ctx) :
  present (edsDomainUrl ctx) = None ->
  (present (sourceUrl ctx) = None ->
     fetchBlockSchema net blockName ctx
     = mkM [Warn ("No domain available for fetching schema for block "
                  +:+ blockName) None]
           (Returned None))
  /\ (forall src e,
        present (sourceUrl ctx) = Some src -> new_URL net src = Thrown e ->
        fetchBlockSchema net blockName ctx
        = mkM [Warn ("Failed to extract domain from sourceUrl: " +:+ src) (Some e)]
              (Returned None)).
Proof.
  intros He. split.
  - intros Hs. by apply fetchBlockSchema_no_domain.
  - intros src e Hs Hu. by apply fetchBlockSchema_bad_sourceUrl.
Qed.

Lemma loader_without_domain_witness :
  fetchBlockSchema (servingNet demoSchema) "hero" (sourceOnlyCtx "not a url")
  = mkM [Warn "Failed to extract domain from sourceUrl: not a url"
           (Some (JsError "Invalid URL"))]
        (Returned None).
Proof.
  apply (proj2 (loader_without_domain (servingNet demoSchema) "hero"
                  (sourceOnlyCtx "not a url") eq_refl)); reflexivity.
Defined.

(** X11: [edsDomainUrl] wins.  When it is set (non-empty), the loader's
    answer depends on the context and the platform only through that domain
    and through what [fetch] answers at the one address
    [<domain>/blocks/<name>/<name>.schema.json]: [sourceUrl], the [URL]
    constructor and every other address are never consulted. *)
Theorem loader_uses_edsDomainUrl_only (net net' : Net) (blockName : string)
    (ctx ctx' : Ctx) (base : string) :
  present (edsDomainUrl ctx) = Some base ->
  present (edsDomainUrl ctx') = Some base ->
  fetch net (schemaUrlOf base blockName) = fetch net' (schemaUrlOf base blockName) ->
  fetchBlockSchema net blockName ctx = fetchBlockSchema net' blockName ctx'.
Proof.
  intros H H' Hfetch.
  rewrite (fetchBlockSchema_resolved net blockName ctx base (FromEdsDomain _ _ _ H)).
  rewrite (fetchBlockSchema_resolved net' blockName ctx' base (FromEdsDomain _ _ _ H')).
  by rewrite Hfetch.
Qed.

Lemma loader_uses_edsDomainUrl_only_witness :
  fetchBlockSchema (htmlNet 404) "hero" liveCtx
  = fetchBlockSchema
      {| new_URL := new_URL (servingNet demoSchema); fetch := fetch (htmlNet 404) |}
      "hero"
      (mkCtx None None (Some "https://main--site--org.aem.live") None
         (Some "https://elsewhere.example/page") false true false (Some "flatten")).
Proof.
  apply (loader_uses_edsDomainUrl_only _ _ "hero" _ _ "https://main--site--org.aem.live");
    reflexivity.
Defined.

(** X12: the successful path.  Once the domain is settled, an ok response
    whose body parses is returned as it is, silently; with only a
    [sourceUrl], the domain is its protocol and host, and its path and query
    play no part. *)
Theorem loader_returns_parsed_schema (net : Net) (blockName : string) (ctx : Ctx)
    (base : string) (response : Response) (schema : option BlockSchema) :
  ResolvesDomain net ctx base ->
  fetch net (schemaUrlOf base blockName) = Returned response ->
  ok response = true -> json response = Returned schema ->
  fetchBlockSchema net blockName ctx = mret schema.
Proof.
  intros Hbase Hfetch Hok Hjson.
  rewrite (fetchBlockSchema_resolved net blockName ctx base Hbase).
  by rewrite Hfetch, bind_lift_returned, Hok, Hjson.
Qed.

Lemma loader_returns_parsed_schema_witness :
  fetchBlockSchema (servingNet demoSchema) "hero"
    (sourceOnlyCtx "https://example.com/some/page?x=1")
  = mret (Some demoSchema).
Proof.
  apply (loader_returns_parsed_schema (servingNet demoSchema) "hero"
           (sourceOnlyCtx "https://example.com/some/page?x=1")
           "https://example.com"
           (mkResponse true 200 (Returned (Some demoSchema))) (Some demoSchema));
    [|reflexivity..].
  apply (FromSourceUrl (servingNet demoSchema)
           (sourceOnlyCtx "https://example.com/some/page?x=1")
           "https://example.com/some/page?x=1" (mkURL "https:" "example.com"));
    reflexivity.
Defined.

(** * The request context *)

Lemma String_split_nonempty sep s : String_split sep s <> [].
Proof.
  destruct s as [|c rest]; simpl; [done|].
  destruct (Ascii.eqb c sep); [done|]. by destruct (String_split sep rest).
Qed.

Lemma Array_join_cons sep w l :
  l <> [] -> Array_join sep (w :: l) = w +:+ sep +:+ Array_join sep l.
Proof. by destruct l. Qed.

(** Splitting at a character and joining with it gives the string back. *)
Lemma Array_join_String_split sep s :
  Array_join (String sep "") (String_split sep s) = s.
Proof.
  induction s as [|c rest IH]; [done|]. simpl String_split.
  destruct (Ascii.eqb_spec c sep) as [->|Hne].
  - rewrite Array_join_cons by apply String_split_nonempty. simpl. by rewrite IH.
  - destruct (String_split sep rest) as [|w ws] eqn:Hs.
    { by destruct (String_split_nonempty sep rest). }
    rewrite <- IH. by destruct ws.
Qed.

Section ContextFacts.
Variable URL_ctor : string -> Outcome ParsedURL.

(** [getCtx], branch by branch. *)
Lemma getCtx_unfold url :
  getCtx URL_ctor url =
  match URL_ctor url with
  | Thrown e => mkM [] (Thrown e)
  | Returned urlObj =>
      let get := searchParams_get (searchParams urlObj) in
      match present (get "url") with
      | Some param =>
          match URL_ctor param with
          | Returned v =>
              mret (mkCtx None None
                      (Some (protocol (origin v) +:+ "//" +:+ hostname (origin v)))
                      None (Some param)
                      (strict_eq (get "schema") "true")
                      (strict_eq (get "compact") "true")
                      (negb (strict_eq (get "head") "false"))
                      (present (get "transformer")))
          | Thrown e =>
              throw_Error ("Invalid URL parameter: " +:+ param +:+ ". "
                           +:+ message_of e)
          end
      | None =>
          let parts := String_split "/" (pathname urlObj) in
          match present (parts !! 1%nat), present (parts !! 2%nat) with
          | Some org, Some site =>
              mret (mkCtx (Some org) (Some site)
                      (Some ("https://main--" +:+ site +:+ "--" +:+ org +:+ ".aem."
                             +:+ (if strict_eq (get "preview") "true"
                                  then "page" else "live")))
                      (Some (Array_join "/" (drop 3 parts)))
                      None
                      (strict_eq (get "schema") "true")
                      (strict_eq (get "compact") "true")
                      (negb (strict_eq (get "head") "false"))
                      (present (get "transformer")))
          | _, _ =>
              throw_Error "Usage: /org/site/path or ?url=https://domain.com/path"
          end
      end
  end.
Proof.
  unfold getCtx. destruct (URL_ctor url) as [u|e]; [|done].
  rewrite bind_lift_returned. cbv zeta.
  destruct (present (searchParams_get (searchParams u) "url")) as [param|]; [|done].
  unfold getBaseDomain. destruct (URL_ctor param) as [v|e]; done.
Qed.
End ContextFacts.

(** X13: direct mode.  A request with a non-empty [url] parameter that the
    [URL] constructor accepts gives the context whose [sourceUrl] is that
    parameter, whose schema domain is its protocol and host, whose org, site
    and content path are unset and whose flags are read from the [schema],
    [compact], [head] and [transformer] parameters.  The request path and
    the [preview] parameter play no part: any other request that parses and
    carries the same [url], [schema], [compact], [head] and [transformer]
    parameters gives the same context. *)
Theorem getCtx_direct_mode (URL_ctor : string -> Outcome ParsedURL)
    (url param : string) (u v : ParsedURL) :
  URL_ctor url = Returned u ->
  searchParams_get (searchParams u) "url" = Some param -> param <> "" ->
  URL_ctor param = Returned v ->
  (exists ctx,
     getCtx URL_ctor url = mret ctx
     /\ sourceUrl ctx = Some param
     /\ edsDomainUrl ctx = Some (protocol (origin v) +:+ "//" +:+ hostname (origin v))
     /\ org ctx = None /\ site ctx = None /\ contentPath ctx = None
     /\ useSchema ctx = strict_eq (searchParams_get (searchParams u) "schema") "true"
     /\ compact ctx = strict_eq (searchParams_get (searchParams u) "compact") "true"
     /\ includeHead ctx
        = negb (strict_eq (searchParams_get (searchParams u) "head") "false")
     /\ transformer ctx = present (searchParams_get (searchParams u) "transformer"))
  /\ (forall url' u',
        URL_ctor url' = Returned u' ->
        (forall k, k ∈ ["url"; "schema"; "compact"; "head"; "transformer"] ->
           searchParams_get (searchParams u') k = searchParams_get (searchParams u) k) ->
        getCtx URL_ctor url' = getCtx URL_ctor url).
Proof.
  intros Hu Hp Hne Hv. split.
  - rewrite getCtx_unfold, Hu. cbv zeta.
    rewrite Hp, (present_nonempty param Hne), Hv. eexists. split; [reflexivity|].
    done.
  - intros url' u' Hu' Hsame. rewrite !getCtx_unfold, Hu, Hu'. cbv zeta.
    rewrite !Hsame by (repeat (by left) || right).
    by rewrite Hp, (present_nonempty param Hne), Hv.
Qed.

Lemma getCtx_direct_mode_witness :
  getCtx httpsURL "https://w.dev/other/place?url=https://example.com/page&schema=true"
  = getCtx httpsURL
      "https://w.dev/ignored/path?preview=true&url=https://example.com/page&schema=true".
Proof.
  apply (proj2 (getCtx_direct_mode httpsURL
           "https://w.dev/ignored/path?preview=true&url=https://example.com/page&schema=true"
           "https://example.com/page"
           (mkParsedURL (mkURL "https:" "w.dev") "/ignored/path"
              [("preview", "true"); ("url", "https://example.com/page");
               ("schema", "true")])
           (mkParsedURL (mkURL "https:" "example.com") "/page" [])
           eq_refl eq_refl ltac:(discriminate) eq_refl)
           "https://w.dev/other/place?url=https://example.com/page&schema=true"
           (mkParsedURL (mkURL "https:" "w.dev") "/other/place"
              [("url", "https://example.com/page"); ("schema", "true")]));
    [reflexivity|].
  intros k Hk.
  repeat (apply elem_of_cons in Hk as [->|Hk]; [reflexivity|]).
  by apply elem_of_nil in Hk.
Defined.

Lemma String_split_no_sep sep s :
  Forall (fun w => contains_char sep w = false) (String_split sep s).
Proof.
  induction s as [|c rest IH]; [by repeat constructor|]. simpl String_split.
  destruct (Ascii.eqb c sep) eqn:Hc; [by constructor|].
  destruct IH as [|w ws Hw Hws].
  - by repeat constructor; simpl; rewrite Hc.
  - constructor; [|done]. simpl. by rewrite Hc.
Qed.

(** X14: legacy mode.  Without a [url] parameter, a context that [getCtx]
    returns has a non-empty org and site, no [sourceUrl], the domain
    [https://main--<site>--<org>.aem.live] ([.aem.page] when [preview=true]),
    the flags read from the [schema], [compact], [head] and [transformer]
    parameters, and a content path from which the request path can be
    rebuilt: the path is [<x>/<org>/<site>/<contentPath>], or
    [<x>/<org>/<site>] with an empty content path, where [<x>], [<org>] and
    [<site>] hold no slash, so that [<x>] is what stands before the first
    slash and org and site are the two segments after it. *)
Theorem getCtx_legacy_mode (URL_ctor : string -> Outcome ParsedURL)
    (url : string) (u : ParsedURL) (ctx : Ctx) :
  URL_ctor url = Returned u ->
  present (searchParams_get (searchParams u) "url") = None ->
  outcome (getCtx URL_ctor url) = Returned ctx ->
  exists o s c x,
    org ctx = Some o /\ site ctx = Some s /\ contentPath ctx = Some c
    /\ sourceUrl ctx = None /\ o <> "" /\ s <> ""
    /\ edsDomainUrl ctx
       = Some ("https://main--" +:+ s +:+ "--" +:+ o +:+ ".aem."
               +:+ (if strict_eq (searchParams_get (searchParams u) "preview") "true"
                    then "page" else "live"))
    /\ (pathname u = x +:+ "/" +:+ o +:+ "/" +:+ s +:+ "/" +:+ c
        \/ (c = "" /\ pathname u = x +:+ "/" +:+ o +:+ "/" +:+ s))
    /\ contains_char "/" x = false /\ contains_char "/" o = false
    /\ contains_char "/" s = false
    /\ String_split "/" (pathname u) !! 0%nat = Some x
    /\ String_split "/" (pathname u) !! 1%nat = Some o
    /\ String_split "/" (pathname u) !! 2%nat = Some s
    /\ c = Array_join "/" (drop 3 (String_split "/" (pathname u)))
    /\ useSchema ctx = strict_eq (searchParams_get (searchParams u) "schema") "true"
    /\ compact ctx = strict_eq (searchParams_get (searchParams u) "compact") "true"
    /\ includeHead ctx
       = negb (strict_eq (searchParams_get (searchParams u) "head") "false")
    /\ transformer ctx = present (searchParams_get (searchParams u) "transformer").
Proof.
  intros Hu Hp. rewrite getCtx_unfold, Hu. cbv zeta. rewrite Hp.
  pose proof (Array_join_String_split "/" (pathname u)) as Hjoin.
  pose proof (String_split_no_sep "/" (pathname u)) as Hsep.
  destruct (String_split "/" (pathname u)) as [|x [|o' [|s' rest]]];
    cbn [lookup list_lookup drop]; try done.
  { by destruct (present (Some o')). }
  destruct (present (Some o')) as [o|] eqn:Ho; [|done].
  destruct (present (Some s')) as [s|] eqn:Hs; [|done].
  apply present_Some in Ho as [[= ->] Hone].
  apply present_Some in Hs as [[= ->] Hsne].
  apply Forall_cons in Hsep as [Hx Hsep].
  apply Forall_cons in Hsep as [Ho Hsep].
  apply Forall_cons in Hsep as [Hs _].
  simpl. intros [= <-]. exists o, s, (Array_join "/" rest), x. simpl.
  repeat split; try done.
  rewrite <- Hjoin. destruct rest as [|r rest]; [right | left]; done.
Qed.

Lemma getCtx_legacy_mode_witness :
  exists o s c x,
    org legacyCtx = Some o /\ site legacyCtx = Some s
    /\ contentPath legacyCtx = Some c
    /\ sourceUrl legacyCtx = None /\ o <> "" /\ s <> ""
    /\ edsDomainUrl legacyCtx
       = Some ("https://main--" +:+ s +:+ "--" +:+ o +:+ ".aem."
               +:+ (if strict_eq (searchParams_get (searchParams legacyParsed) "preview")
                         "true"
                    then "page" else "live"))
    /\ (pathname legacyParsed = x +:+ "/" +:+ o +:+ "/" +:+ s +:+ "/" +:+ c
        \/ (c = "" /\ pathname legacyParsed = x +:+ "/" +:+ o +:+ "/" +:+ s))
    /\ contains_char "/" x = false /\ contains_char "/" o = false
    /\ contains_char "/" s = false
    /\ String_split "/" (pathname legacyParsed) !! 0%nat = Some x
    /\ String_split "/" (pathname legacyParsed) !! 1%nat = Some o
    /\ String_split "/" (pathname legacyParsed) !! 2%nat = Some s
    /\ c = Array_join "/" (drop 3 (String_split "/" (pathname legacyParsed)))
    /\ useSchema legacyCtx
       = strict_eq (searchParams_get (searchParams legacyParsed) "schema") "true"
    /\ compact legacyCtx
       = strict_eq (searchParams_get (searchParams legacyParsed) "compact") "true"
    /\ includeHead legacyCtx
       = negb (strict_eq (searchParams_get (searchParams legacyParsed) "head") "false")
    /\ transformer legacyCtx
       = present (searchParams_get (searchParams legacyParsed) "transformer").
Proof.
  apply (getCtx_legacy_mode httpsURL legacyRequest legacyParsed legacyCtx);
    reflexivity.
Defined.

(** X15: the failures of [getCtx], all of them.  It throws exactly when the
    request URL does not parse (the platform's error), when the [url]
    parameter is non-empty and does not parse (an error that quotes the
    parameter and the platform's message), or when there is no [url]
    parameter and the path lacks a non-empty org or site (the usage
    message). *)
Theorem getCtx_failures (URL_ctor : string -> Outcome ParsedURL)
    (url : string) (e : Exn) :
  outcome (getCtx URL_ctor url) = Thrown e <->
  URL_ctor url = Thrown e
  \/ (exists u param e',
        URL_ctor url = Returned u
        /\ present (searchParams_get (searchParams u) "url") = Some param
        /\ URL_ctor param = Thrown e'
        /\ e = JsError ("Invalid URL parameter: " +:+ param +:+ ". " +:+ message_of e'))
  \/ (exists u,
        URL_ctor url = Returned u
        /\ present (searchParams_get (searchParams u) "url") = None
        /\ (present (String_split "/" (pathname u) !! 1%nat) = None
            \/ present (String_split "/" (pathname u) !! 2%nat) = None)
        /\ e = JsError "Usage: /org/site/path or ?url=https://domain.com/path").
Proof.
  rewrite getCtx_unfold. split.
  - destruct (URL_ctor url) as [u|e0] eqn:Hu; [|intros [= ->]; by left].
    cbv zeta.
    destruct (present (searchParams_get (searchParams u) "url")) as [param|] eqn:Hp.
    + destruct (URL_ctor param) as [v|e'] eqn:Hv; [done|].
      intros [= <-]. right. left. by exists u, param, e'.
    + destruct (present (String_split "/" (pathname u) !! 1%nat)) as [o|] eqn:Ho.
      * destruct (present (String_split "/" (pathname u) !! 2%nat)) as [s|] eqn:Hs;
          [done|].
        intros [= <-]. right. right. exists u. auto.
      * intros [= <-]. right. right. exists u. auto.
  - intros [-> | [(u & param & e' & -> & Hp & Hv & ->) | (u & -> & Hp & Hmiss & ->)]].
    + done.
    + cbv zeta. by rewrite Hp, Hv.
    + cbv zeta. rewrite Hp. destruct Hmiss as [-> | ->]; [done|].
      by destruct (present (String_split "/" (pathname u) !! 1%nat)).
Qed.

Lemma getCtx_failures_witness :
  outcome (getCtx httpsURL "https://w.dev/adobecom")
  = Thrown (JsError "Usage: /org/site/path or ?url=https://domain.com/path").
Proof.
  apply (proj2 (getCtx_failures httpsURL "https://w.dev/adobecom" _)).
  right. right.
  exists (mkParsedURL (mkURL "https:" "w.dev") "/adobecom" []).
  repeat split; try reflexivity. right. reflexivity.
Defined.

(** X16: every context that [getCtx] returns carries a non-empty schema
    domain, and a source URL or a content path.  On such a context the
    loader never falls back on [sourceUrl]: its answer depends on the
    platform only through what [fetch] answers at
    [<domain>/blocks/<name>/<name>.schema.json]. *)
Theorem getCtx_settles_the_domain (URL_ctor : string -> Outcome ParsedURL)
    (url : string) (ctx : Ctx) :
  outcome (getCtx URL_ctor url) = Returned ctx ->
  exists base,
    edsDomainUrl ctx = Some base /\ base <> ""
    /\ (present (sourceUrl ctx) <> None \/ contentPath ctx <> None)
    /\ (forall net net' blockName,
          fetch net (schemaUrlOf base blockName) = fetch net' (schemaUrlOf base blockName) ->
          fetchBlockSchema net blockName ctx = fetchBlockSchema net' blockName ctx).
Proof.
  assert (Hloader : forall base,
            edsDomainUrl ctx = Some base -> base <> "" ->
            forall net net' blockName,
              fetch net (schemaUrlOf base blockName)
              = fetch net' (schemaUrlOf base blockName) ->
              fetchBlockSchema net blockName ctx = fetchBlockSchema net' blockName ctx).
  { intros base Hb Hne net net' blockName Hfetch.
    assert (Hp : present (edsDomainUrl ctx) = Some base)
      by (rewrite Hb; by apply present_nonempty).
    rewrite (fetchBlockSchema_resolved net blockName ctx base (FromEdsDomain _ _ _ Hp)).
    rewrite (fetchBlockSchema_resolved net' blockName ctx base (FromEdsDomain _ _ _ Hp)).
    by rewrite Hfetch. }
  rewrite getCtx_unfold.
  destruct (URL_ctor url) as [u|e0]; [|done]. cbv zeta.
  destruct (present (searchParams_get (searchParams u) "url")) as [param|] eqn:Hp.
  - destruct (URL_ctor param) as [v|e']; [|done].
    apply present_Some in Hp as [_ Hne].
    intros [= <-]. eexists. split; [reflexivity|].
    split; [apply base_domain_nonempty|]. split.
    + left. cbn [sourceUrl]. by rewrite (present_nonempty param Hne).
    + apply Hloader; [reflexivity | apply base_domain_nonempty].
  - destruct (present (String_split "/" (pathname u) !! 1%nat)) as [o|]; [|done].
    destruct (present (String_split "/" (pathname u) !! 2%nat)) as [s|]; [|done].
    intros [= <-]. eexists. split; [reflexivity|].
    split; [done|]. split; [by right|].
    apply Hloader; [reflexivity | done].
Qed.

Lemma getCtx_settles_the_domain_witness :
  exists base,
    edsDomainUrl legacyCtx = Some base /\ base <> ""
    /\ (present (sourceUrl legacyCtx) <> None \/ contentPath legacyCtx <> None)
    /\ (forall net net' blockName,
          fetch net (schemaUrlOf base blockName) = fetch net' (schemaUrlOf base blockName) ->
          fetchBlockSchema net blockName legacyCtx
          = fetchBlockSchema net' blockName legacyCtx).
Proof.
  apply (getCtx_settles_the_domain httpsURL legacyRequest legacyCtx). reflexivity.
Defined.

(** * Trimmed text *)

Lemma append_cons c a b : String c a +:+ b = String c (a +:+ b).
Proof. reflexivity. Qed.

Lemma append_nil_r s : s +:+ "" = s.
Proof.
  induction s as [|c s IH]; [done|]. by rewrite append_cons, IH.
Qed.

Lemma append_assoc a b c : (a +:+ b) +:+ c = a +:+ b +:+ c.
Proof.
  induction a as [|x a IH]; [done|]. by rewrite !append_cons, IH.
Qed.

Lemma rev_string_acc s acc : rev_string s acc = rev_string s "" +:+ acc.
Proof.
  revert acc. induction s as [|c s IH]; intros acc; [done|].
  change (rev_string (String c s) acc) with (rev_string s (String c acc)).
  change (rev_string (String c s) "") with (rev_string s (String c "")).
  rewrite (IH (String c acc)), (IH (String c "")). by rewrite append_assoc.
Qed.

Lemma rev_string_append a b :
  rev_string (a +:+ b) "" = rev_string b "" +:+ rev_string a "".
Proof.
  induction a as [|c a IH]; [by rewrite append_nil_r|].
  rewrite append_cons.
  change (rev_string (String c (a +:+ b)) "")
    with (rev_string (a +:+ b) (String c "")).
  change (rev_string (String c a) "") with (rev_string a (String c "")).
  rewrite (rev_string_acc (a +:+ b)), IH, (rev_string_acc a (String c "")).
  by rewrite append_assoc.
Qed.

Lemma rev_string_involutive s : rev_string (rev_string s "") "" = s.
Proof.
  induction s as [|c s IH]; [done|].
  change (rev_string (String c s) "") with (rev_string s (String c "")).
  by rewrite (rev_string_acc s), rev_string_append, IH.
Qed.

Lemma trim_start_unfold s :
  trim_start s =
  match s with
  | EmptyString => EmptyString
  | String c1 r1 =>
      if is_space c1 then trim_start r1
      else
        match r1 with
        | EmptyString => s
        | String c2 r2 =>
            if is_space2 c1 c2 then trim_start r2
            else
              match r2 with
              | EmptyString => s
              | String c3 r3 => if is_space3 c1 c2 c3 then trim_start r3 else s
              end
        end
  end.
Proof. by destruct s. Qed.

Lemma trim_start_reversed_unfold s :
  trim_start_reversed s =
  match s with
  | EmptyString => EmptyString
  | String c1 r1 =>
      if is_space c1 then trim_start_reversed r1
      else
        match r1 with
        | EmptyString => s
        | String c2 r2 =>
            if is_space2 c2 c1 then trim_start_reversed r2
            else
              match r2 with
              | EmptyString => s
              | String c3 r3 =>
                  if is_space3 c3 c2 c1 then trim_start_reversed r3 else s
              end
        end
  end.
Proof. by destruct s. Qed.

(** Both scans are handled alike: by induction on a bound of the length,
    one case for each way a white-space character can begin the string. *)
Ltac scan_cases unfold_lemma IH :=
  let c1 := fresh "c1" in let c2 := fresh "c2" in let c3 := fresh "c3" in
  let H1 := fresh "H1" in let H2 := fresh "H2" in let H3 := fresh "H3" in
  intros [|c1 [|c2 [|c3 ?]]] ?; rewrite unfold_lemma;
    try destruct (is_space c1) eqn:H1;
    try destruct (is_space2 _ _) eqn:H2;
    try destruct (is_space3 _ _ _) eqn:H3;
    try (apply IH; simpl in *; lia).

Lemma trim_start_clean s : starts_with_space (trim_start s) = false.
Proof.
  assert (H : forall n s, (String.length s <= n)%nat ->
                starts_with_space (trim_start s) = false);
    [|by apply (H (String.length s))].
  clear s. induction n as [|n IH].
  { intros [|c s] Hs; [done | simpl in Hs; lia]. }
  scan_cases trim_start_unfold IH; simpl; by rewrite ?H1, ?H2, ?H3.
Qed.

Lemma trim_start_reversed_clean s :
  starts_with_space_reversed (trim_start_reversed s) = false.
Proof.
  assert (H : forall n s, (String.length s <= n)%nat ->
                starts_with_space_reversed (trim_start_reversed s) = false);
    [|by apply (H (String.length s))].
  clear s. induction n as [|n IH].
  { intros [|c s] Hs; [done | simpl in Hs; lia]. }
  scan_cases trim_start_reversed_unfold IH; simpl; by rewrite ?H1, ?H2, ?H3.
Qed.

Lemma trim_start_reversed_suffix s : exists p, s = p +:+ trim_start_reversed s.
Proof.
  assert (H : forall n s, (String.length s <= n)%nat ->
                exists p, s = p +:+ trim_start_reversed s);
    [|by apply (H (String.length s))].
  clear s. induction n as [|n IH].
  { intros [|c s] Hs; [by exists "" | simpl in Hs; lia]. }
  assert (IH1 : forall c s, (String.length s <= n)%nat ->
                  exists p, String c s = p +:+ trim_start_reversed s).
  { intros c s [p Hp]%IH. exists (String c p). by rewrite append_cons, <- Hp. }
  assert (IH2 : forall c d s, (S (String.length s) <= n)%nat ->
                  exists p, String c (String d s) = p +:+ trim_start_reversed s).
  { intros c d s Hs. destruct (IH1 d s) as [p Hp]; [lia|].
    exists (String c p). by rewrite append_cons, <- Hp. }
  assert (IH3 : forall c d e s, (S (S (String.length s)) <= n)%nat ->
                  exists p, String c (String d (String e s))
                            = p +:+ trim_start_reversed s).
  { intros c d e s Hs. destruct (IH2 d e s) as [p Hp]; [lia|].
    exists (String c p). by rewrite append_cons, <- Hp. }
  intros [|c1 [|c2 [|c3 r]]] Hs; rewrite trim_start_reversed_unfold;
    try destruct (is_space c1);
    try destruct (is_space2 _ _);
    try destruct (is_space3 _ _ _);
    try (by exists "");
    first [apply IH1 | apply IH2 | apply IH3]; simpl in *; lia.
Qed.

(** A string that begins with white space still does with more behind it. *)
Lemma starts_with_space_append a b :
  starts_with_space a = true -> starts_with_space (a +:+ b) = true.
Proof.
  destruct a as [|c1 [|c2 [|c3 r]]]; [done| | |]; rewrite ?append_cons; simpl.
  - rewrite orb_false_r. by intros ->.
  - rewrite orb_false_r. intros H. destruct (is_space c1); [done|].
    simpl in *. by rewrite H.
  - done.
Qed.

Lemma first_char_starts_with_space s c :
  starts_with_space s = false -> first_char s = Some c -> is_space c = false.
Proof.
  destruct s as [|c1 r1]; [done|]. simpl. intros H [= <-].
  by destruct (is_space c1).
Qed.

Lemma first_char_starts_with_space_reversed s c :
  starts_with_space_reversed s = false -> first_char s = Some c ->
  is_space c = false.
Proof.
  destruct s as [|c1 r1]; [done|]. simpl. intros H [= <-].
  by destruct (is_space c1).
Qed.

Lemma last_char_snoc r c : last_char (r +:+ String c "") = Some c.
Proof.
  induction r as [|x r IH]; [done|]. rewrite append_cons.
  change (last_char (String x (r +:+ String c "")))
    with (match r +:+ String c "" with
          | EmptyString => Some x
          | String _ _ => last_char (r +:+ String c "")
          end).
  rewrite IH. by destruct r.
Qed.

Lemma last_char_rev_string s : last_char (rev_string s "") = first_char s.
Proof.
  destruct s as [|c s]; [done|].
  change (rev_string (String c s) "") with (rev_string s (String c "")).
  rewrite rev_string_acc. apply last_char_snoc.
Qed.

(** What [trim] returns neither begins nor ends with white space. *)
Lemma trim_clean s :
  starts_with_space (trim s) = false /\ ends_with_space (trim s) = false.
Proof.
  unfold trim, ends_with_space.
  destruct (trim_start_reversed_suffix (rev_string (trim_start s) "")) as [p Hp].
  set (u := trim_start_reversed (rev_string (trim_start s) "")) in *.
  split.
  - apply (f_equal (fun x => rev_string x "")) in Hp.
    rewrite rev_string_involutive, rev_string_append in Hp.
    destruct (starts_with_space (rev_string u "")) eqn:Hu; [|done].
    apply (starts_with_space_append _ (rev_string p "")) in Hu.
    by rewrite <- Hp, trim_start_clean in Hu.
  - rewrite rev_string_involutive. apply trim_start_reversed_clean.
Qed.

Lemma trim_ends s c :
  first_char (trim s) = Some c \/ last_char (trim s) = Some c ->
  is_space c = false.
Proof.
  destruct (trim_clean s) as [Hstart Hend]. intros [Hfirst | Hlast].
  - by apply (first_char_starts_with_space (trim s)).
  - unfold ends_with_space in Hend.
    apply (first_char_starts_with_space_reversed (rev_string (trim s) "")); [done|].
    by rewrite <- last_char_rev_string, rev_string_involutive.
Qed.

(** X17: a text value is trimmed.  When a String property reads the text of
    an element (by the text sentinel, or because the named attribute is
    neither on the element nor inherited, or is falsy), the value it yields
    is the trimmed text, is never empty, and neither begins nor ends with a
    white-space character, be it an ASCII one, a no-break space, a byte
    order mark or a Unicode space or line separator. *)
Theorem text_values_are_trimmed (q : Facade) (e : Element) (p : SchemaProperty)
    (name : option string) (v : Value) :
  present (x_eds_selector p) = None ->
  attributeNameOf p name = "text"
    \/ (forall pv, get_property (properties e) (attributeNameOf p name) = Some pv ->
          truthy pv = false) ->
  outcome (extractStringValue q e p None name) = Returned (Some v) ->
  exists t,
    v = VString t /\ t = trim (getText q e) /\ t <> ""
    /\ starts_with_space t = false /\ ends_with_space t = false
    /\ (forall c, first_char t = Some c \/ last_char t = Some c -> is_space c = false).
Proof.
  intros Hsel Hname. rewrite extractStringValue_direct by done.
  assert (Hread : extractValueFromElement q e (attributeNameOf p name)
                  = PVString (trim (getText q e))).
  { destruct Hname as [-> | Hfalsy]; [done|].
    destruct (get_property (properties e) (attributeNameOf p name)) as [pv|] eqn:Hpv.
    - by apply (extractValueFromElement_falsy q e _ pv), Hfalsy.
    - by apply extractValueFromElement_absent. }
  rewrite Hread. unfold or_null. simpl.
  destruct (String.eqb_spec (trim (getText q e)) "") as [|Hne]; [done|].
  simpl. intros [= <-]. exists (trim (getText q e)).
  destruct (trim_clean (getText q e)) as [Hstart Hend].
  repeat split; [done | done | done |]. apply trim_ends.
Qed.

Lemma text_values_are_trimmed_witness :
  exists t,
    VString "padded text" = VString t /\ t = trim (getText tagFacade nbspParagraph)
    /\ t <> ""
    /\ starts_with_space t = false /\ ends_with_space t = false
    /\ (forall c, first_char t = Some c \/ last_char t = Some c -> is_space c = false).
Proof.
  apply (text_values_are_trimmed tagFacade nbspParagraph (stringProp None None)
           (Some "body") (VString "padded text"));
    [reflexivity | | reflexivity].
  right. intros pv Hpv. vm_compute in Hpv. discriminate.
Defined.
